(** * Long_Sect: the Markdown table recovery of [pipeline_profile_app_5j.py]

    A shallow embedding of [parse_markdown_table] and of the Python and
    pandas primitives it calls, followed by the properties of the parser.

    Conventions of the model:
    - a Python [str] is a list of characters; the alphabet is the 8-bit
      range (code points 0..255), on which whitespace, line boundaries and
      case folding are the tables given below;
    - an exception is a value of [exn]; a computation that may raise has
      type [result A];
    - a DataFrame is its column labels, its row index and its rows;
    - [pandas.to_numeric]'s reading of one string is library code, taken
      as a parameter [parse_number] of the development. *)

From Stdlib Require Import Ascii String List Bool Arith Lia.
From Equations Require Import Equations.
Import ListNotations.

Set Implicit Arguments.

#[local] Arguments Ascii.eqb : simpl never.
#[local] Arguments nat_of_ascii : simpl never.

(** ** Python strings *)

Definition str := list ascii.

Definition lit (s : string) : str := list_ascii_of_string s.

Definition LF : ascii := "010"%char.
Definition CR : ascii := "013"%char.
Definition STAR : ascii := "*"%char.
Definition PIPE : ascii := "|"%char.

Module Str.

(** [str.isspace] on one character: TAB..CR, FS..US, space, NEL, NBSP. *)
Definition is_space (c : ascii) : bool :=
  let n := nat_of_ascii c in
  ((9 <=? n) && (n <=? 13)) || ((28 <=? n) && (n <=? 32))
  || (n =? 133) || (n =? 160).

(** The line boundaries of [str.splitlines]: LF, VT, FF, CR, FS, GS, RS
    and NEL (CR LF counts as one boundary, see [splitlines_from]). *)
Definition is_linebreak (c : ascii) : bool :=
  let n := nat_of_ascii c in
  ((10 <=? n) && (n <=? 13)) || ((28 <=? n) && (n <=? 30)) || (n =? 133).

Fixpoint lstrip (s : str) : str :=
  match s with
  | [] => []
  | c :: s' => if is_space c then lstrip s' else s
  end.

(** A character is dropped from the right end when it is whitespace and
    everything after it has been dropped. *)
Fixpoint rstrip (s : str) : str :=
  match s with
  | [] => []
  | c :: s' =>
      match rstrip s' with
      | [] => if is_space c then [] else [c]
      | r => c :: r
      end
  end.

(** [s.strip()] *)
Definition strip (s : str) : str := rstrip (lstrip s).

(** [s.split(d)] for a one-character separator [d]: the pieces between
    the separators, empty pieces included; never the empty list. *)
Fixpoint split (d : ascii) (s : str) : list str :=
  match s with
  | [] => [[]]
  | c :: s' =>
      if Ascii.eqb c d then [] :: split d s'
      else match split d s' with
           | [] => [[c]]
           | p :: ps => (c :: p) :: ps
           end
  end.

Fixpoint starts_with (w s : str) : bool :=
  match w, s with
  | [], _ => true
  | _ :: _, [] => false
  | a :: w', c :: s' => Ascii.eqb a c && starts_with w' s'
  end.

(** [w in s] *)
Fixpoint contains (w s : str) : bool :=
  starts_with w s ||
  match s with
  | [] => false
  | _ :: s' => contains w s'
  end.

(** [s.splitlines()]: [after_cr] records that the previous character was
    a CR that closed a line, so that a LF right after it belongs to the
    same boundary.  A final line is produced only if it is non-empty. *)
Fixpoint splitlines_from (after_cr : bool) (s : str) : list str :=
  match s with
  | [] => []
  | c :: s' =>
      if after_cr && Ascii.eqb c LF then splitlines_from false s'
      else if is_linebreak c then [] :: splitlines_from (Ascii.eqb c CR) s'
      else match splitlines_from false s' with
           | [] => [[c]]
           | l :: ls => (c :: l) :: ls
           end
  end.

Definition splitlines (s : str) : list str := splitlines_from false s.

(** Case folding of one character, as far as the letters A..Z go. *)
Definition lower (c : ascii) : ascii :=
  let n := nat_of_ascii c in
  if (65 <=? n) && (n <=? 90) then ascii_of_nat (n + 32) else c.

(** Case-insensitive search of a literal pattern. *)
Definition contains_nocase (w s : str) : bool :=
  contains (map lower w) (map lower s).

(** [sep.join(parts)] for a one-character separator. *)
Fixpoint join (sep : ascii) (parts : list str) : str :=
  match parts with
  | [] => []
  | [p] => p
  | p :: ps => p ++ sep :: join sep ps
  end.

End Str.

(** ** [re.sub(r"\*\*(.*?)\*\*", r"\1", text)] *)

(** After an opening [**]: the lazy group [(.*?)] grows one character at a
    time, never over a LF, until the text continues with [**].  The result
    is the group and the text after the closing marker. *)
Fixpoint find_close (s : str) : option (str * str) :=
  match s with
  | [] => None
  | c :: s' =>
      if Str.starts_with [STAR; STAR] s then Some ([], tl s')
      else if Ascii.eqb c LF then None
      else match find_close s' with
           | Some (g, r) => Some (c :: g, r)
           | None => None
           end
  end.

(** A match of the whole pattern at the start of [s]. *)
Definition match_emphasis (s : str) : option (str * str) :=
  match s with
  | a :: b :: s' =>
      if Ascii.eqb a STAR && Ascii.eqb b STAR then find_close s' else None
  | _ => None
  end.

(** A value together with the equation that names it, so that the
    termination proof below can use the outcome of the match. *)
Definition inspect {A} (a : A) : {b : A | a = b} := exist _ a eq_refl.

(** The substitution scans left to right: where the pattern matches, the
    match is replaced by its group and the scan resumes after the match;
    elsewhere one character is copied. *)
Equations? sub_emphasis (s : str) : str by wf (length s) lt :=
  sub_emphasis [] := [];
  sub_emphasis (c :: s') with inspect (match_emphasis (c :: s')) := {
    | exist _ (Some (g, r)) e := g ++ sub_emphasis r;
    | exist _ None _ := c :: sub_emphasis s' }.
Proof.
  assert (shorter : forall t g' r', find_close t = Some (g', r') ->
                                    length r' < length t).
  { induction t as [|d t IH]; intros g' r' H; [discriminate|].
    cbn [find_close] in H.
    destruct (Str.starts_with [STAR; STAR] (d :: t)).
    - injection H as _ <-. destruct t; cbn; lia.
    - destruct (Ascii.eqb d LF); [discriminate|].
      destruct (find_close t) as [[g1 r1]|]; [|discriminate].
      injection H as _ <-. specialize (IH _ _ eq_refl). cbn. lia. }
  destruct s' as [|b s']; [discriminate|].
  destruct (Ascii.eqb c STAR && Ascii.eqb b STAR); [|discriminate].
  apply shorter in e. cbn. lia.
Qed.


(** ** Exceptions *)

Inductive exn : Type := ValueError | IndexError | TypeError.

Inductive result (A : Type) : Type :=
| Ok (a : A)
| Raise (e : exn).

Arguments Ok {A} a.
Arguments Raise {A} e.

Definition bind {A B} (m : result A) (k : A -> result B) : result B :=
  match m with
  | Ok a => k a
  | Raise e => Raise e
  end.

Notation "x <- m ;; k" := (bind m (fun x => k))
  (at level 61, m at next level, right associativity).

(** ** The scan over the lines (source lines 61-73) *)

Definition BAR : str := lit "|".
Definition DASHES : str := lit "---".
Definition SENTINEL : str := lit "EXISTING LEVELS".

(** Truth value of a Python sequence. *)
Definition truthy {A} (l : list A) : bool :=
  match l with
  | [] => false
  | _ :: _ => true
  end.

(** [[cell.strip() for cell in line.split("|") if cell.strip()]] *)
Definition tokenize (line : str) : list str :=
  flat_map (fun cell => if truthy (Str.strip cell) then [Str.strip cell] else [])
           (Str.split PIPE line).

(** ["|" in line and "---" in line] *)
Definition is_separator (line : str) : bool :=
  Str.contains BAR line && Str.contains DASHES line.

Record scan_state : Type := ScanState {
  is_table : bool;
  table_data : list (list str)
}.

(** One iteration of [for line in table_lines]. *)
Definition scan_step (st : scan_state) (line : str) : scan_state :=
  if is_separator line then
    ScanState true (table_data st)
  else if Str.contains BAR line then
    ScanState (is_table st) (table_data st ++ [tokenize line])
  else st.

Definition scan_lines (table_lines : list str) : scan_state :=
  fold_left scan_step table_lines (ScanState false []).

(** The rows collected from a raw text: lines 57-73. *)
Definition raw_table (ocr_text : str) : list (list str) :=
  table_data (scan_lines (Str.splitlines (sub_emphasis ocr_text))).

(** [[row + [e] * (max_columns - len(row)) for row in data]] with [e] the
    empty string; a negative count repeats nothing, as the truncated
    subtraction does. *)
Definition pad_rows (max_columns : nat) (data : list (list str)) : list (list str) :=
  map (fun row => row ++ repeat [] (max_columns - length row)) data.

Definition str_eq_dec : forall a b : str, {a = b} + {a <> b} :=
  list_eq_dec ascii_dec.

(** [labels == col], position by position, counted from [i]. *)
Fixpoint positions_from (i : nat) (col : str) (labels : list str) : list nat :=
  match labels with
  | [] => []
  | l :: labels' =>
      if str_eq_dec l col then i :: positions_from (S i) col labels'
      else positions_from (S i) col labels'
  end.

(** [l[mask]] for a boolean mask. *)
Fixpoint select {A} (mask : list bool) (l : list A) : list A :=
  match mask, l with
  | b :: mask', x :: l' => if b then x :: select mask' l' else select mask' l'
  | _, _ => []
  end.

(** [l[j] = v], nothing out of range. *)
Fixpoint update {A} (j : nat) (v : A) (l : list A) : list A :=
  match l, j with
  | [], _ => []
  | _ :: l', 0 => v :: l'
  | x :: l', S j' => x :: update j' v l'
  end.

(** ** pandas *)

Section Pandas.

Variable num : Type.

(** What [to_numeric] reads in one string, if anything. *)
Variable parse_number : str -> option num.

(** A cell holds a string, a number, or nothing (None / NaN). *)
Inductive cell : Type :=
| CStr (s : str)
| CNum (x : num)
| CMissing.

Record DataFrame : Type := MkFrame {
  columns : list str;
  index : list nat;
  rows : list (list cell)
}.

(** [pd.DataFrame()] *)
Definition empty_frame : DataFrame := MkFrame [] [] [].

(** [pd.DataFrame(data, columns=labels)] for a list of lists of strings:
    the rows are laid out at the width of the longest one, None filling
    the short ones, and that width must be the number of labels. *)
Definition new_frame (data : list (list str)) (labels : list str)
  : result DataFrame :=
  match data with
  | [] => Ok (MkFrame labels [] [])
  | _ :: _ =>
      let width := list_max (map (fun row : list str => length row) data) in
      if width =? length labels then
        Ok (MkFrame labels (seq 0 (length data))
              (map (fun row => map CStr row ++ repeat CMissing (width - length row))
                   data))
      else Raise ValueError
  end.

(** The values of the column at position [j]. *)
Definition column_at (j : nat) (df : DataFrame) : list cell :=
  map (fun row => nth j row CMissing) (rows df).

(** [df.iloc[:, j]] *)
Definition iloc_column (df : DataFrame) (j : nat) : result (list cell) :=
  if j <? length (columns df) then Ok (column_at j df) else Raise IndexError.

(** [series.str.contains(pat, case=False, na=False)]; [pat] is a literal
    here, without any character special to the pattern language. *)
Definition str_contains (pat : str) (series : list cell) : list bool :=
  map (fun c => match c with
                | CStr s => Str.contains_nocase pat s
                | _ => false
                end) series.

(** [df.loc[mask]]: the selected rows keep their index labels. *)
Definition loc_mask (df : DataFrame) (mask : list bool) : DataFrame :=
  MkFrame (columns df) (select mask (index df)) (select mask (rows df)).

(** [df.reset_index(drop=True)] *)
Definition reset_index (df : DataFrame) : DataFrame :=
  MkFrame (columns df) (seq 0 (length (rows df))) (rows df).

(** [df[col]], for [col] among the labels: a Series when [col] labels one
    column, a DataFrame of all the columns so labelled otherwise. *)
Inductive selection : Type :=
| Series (values : list cell)
| Frame (sub : DataFrame).

Definition getitem (df : DataFrame) (col : str) : selection :=
  match positions_from 0 col (columns df) with
  | [j] => Series (column_at j df)
  | js => Frame (MkFrame (map (fun _ => col) js) (index df)
                   (map (fun row => map (fun j => nth j row CMissing) js) (rows df)))
  end.

(** [to_numeric] on one value, [errors="coerce"]: a string is read as a
    number or becomes missing; a number stays as it is. *)
Definition coerce_cell (c : cell) : cell :=
  match c with
  | CStr s => match parse_number s with
              | Some x => CNum x
              | None => CMissing
              end
  | CNum x => CNum x
  | CMissing => CMissing
  end.

(** [pd.to_numeric(arg, errors="coerce")]: a two-dimensional argument is
    a TypeError. *)
Definition to_numeric (arg : selection) : result (list cell) :=
  match arg with
  | Series values => Ok (map coerce_cell values)
  | Frame _ => Raise TypeError
  end.

Fixpoint set_column (j : nat) (values : list cell) (rs : list (list cell))
  : list (list cell) :=
  match rs, values with
  | row :: rs', v :: values' => update j v row :: set_column j values' rs'
  | _, _ => rs
  end.

(** [df[col] = values]: written to every column labelled [col]. *)
Definition setitem (df : DataFrame) (col : str) (values : list cell) : DataFrame :=
  MkFrame (columns df) (index df)
    (fold_left (fun rs j => set_column j values rs)
               (positions_from 0 col (columns df)) (rows df)).

(** [for col in cols: df[col] = pd.to_numeric(df[col], errors="coerce")] *)
Fixpoint coerce_columns (cols : list str) (df : DataFrame) : result DataFrame :=
  match cols with
  | [] => Ok df
  | col :: cols' =>
      values <- to_numeric (getitem df col) ;;
      coerce_columns cols' (setitem df col values)
  end.

(** Lines 76-98: the frame built from the collected rows. *)
Definition build_frame (table : list (list str)) : result DataFrame :=
  match table with
  | [] => Ok empty_frame
  | first :: data =>
      let headers := map Str.strip first in
      let max_columns := length headers in
      let data := pad_rows max_columns data in
      df <- new_frame data headers ;;
      labels <- iloc_column df 0 ;;
      let df := loc_mask df (map negb (str_contains SENTINEL labels)) in
      let df := reset_index df in
      coerce_columns (tl (columns df)) df
  end.

Definition parse_markdown_table (ocr_text : str) : result DataFrame :=
  build_frame (raw_table ocr_text).

End Pandas.

Arguments CStr {num} s.
Arguments CMissing {num}.
Arguments empty_frame {num}.
Arguments new_frame {num} data labels.

(** A small reader of numbers, used to run the model: unsigned decimal
    integer literals, which [to_numeric] reads as integers; every string
    that has another character, and the empty string, is refused. *)
Definition is_digit (c : ascii) : bool :=
  let n := nat_of_ascii c in (48 <=? n) && (n <=? 57).

Definition parse_digits (s : str) : option nat :=
  if truthy s && forallb is_digit s
  then Some (fold_left (fun acc c => 10 * acc + (nat_of_ascii c - 48)) s 0)
  else None.

(** ** The OCR step and the upload loop (source lines 31-50, 118-138) *)

(** How [subprocess.run(..., check=True)] ends: with the text the script
    wrote, with a non-zero exit status, or with another exception (the
    program is not found, say), which [extract_text_with_llamaocr] does
    not catch. *)
Inductive process_outcome : Type :=
| Completed (stdout : str)
| CalledProcessError
| OtherProcessError.

(** What stops a run of the page: an exception of the parser or of the
    process call. *)
Inductive app_exn : Type :=
| ParserRaised (e : exn)
| ProcessRaised.

Inductive run (A : Type) : Type :=
| Done (a : A)
| Aborted (e : app_exn).

Arguments Done {A} a.
Arguments Aborted {A} e.

(** Lines 40-50: the standard output, or the empty text after a
    CalledProcessError. *)
Definition extract_text_with_llamaocr (outcome : process_outcome) : run str :=
  match outcome with
  | Completed stdout => Done stdout
  | CalledProcessError => Done []
  | OtherProcessError => Aborted ProcessRaised
  end.

Section Upload.

Variable num : Type.
Variable parse_number : str -> option num.

(** [df.empty]: one of the two axes has length 0. *)
Definition is_empty (df : DataFrame num) : bool :=
  negb (truthy (columns df)) || negb (truthy (index df)).

(** Lines 126-138 for one uploaded file, as far as the session's
    [data_table] goes (what is displayed is left out): the new table
    replaces the old one unless it is empty. *)
Definition upload_one (data_table : DataFrame num) (outcome : process_outcome)
  : run (DataFrame num) :=
  match extract_text_with_llamaocr outcome with
  | Aborted e => Aborted e
  | Done ocr_text =>
      match parse_markdown_table parse_number ocr_text with
      | Raise e => Aborted (ParserRaised e)
      | Ok ocr_data =>
          if negb (is_empty ocr_data) then Done ocr_data else Done data_table
      end
  end.

(** [for uploaded_file in uploaded_files: ...] *)
Fixpoint upload_all (data_table : DataFrame num) (outcomes : list process_outcome)
  : run (DataFrame num) :=
  match outcomes with
  | [] => Done data_table
  | outcome :: outcomes' =>
      match upload_one data_table outcome with
      | Done data_table' => upload_all data_table' outcomes'
      | Aborted e => Aborted e
      end
  end.

End Upload.

(** ** The data behind the plot (source lines 150-182) *)

Definition CHAINAGE : str := lit "CHAINAGE".
Definition DEPTH_TO_INVERT : str := lit "DEPTH TO INVERT".

Section Visualization.

Variable num : Type.
Variable parse_number : str -> option num.

(** [str.upper], library code whose results may leave the 8-bit alphabet;
    taken as a parameter. *)
Variable upper : str -> str.

(** What the tab comes to: no table to show, no column to use as x-axis,
    or the prepared data with the labels of the x-axis and of the plotted
    columns. *)
Inductive view : Type :=
| NoData
| NoChainage
| Plot (x_axis : str) (numeric_columns : list str) (data : DataFrame num).

(** [data.columns = labels] *)
Definition set_columns (df : DataFrame num) (labels : list str) : DataFrame num :=
  MkFrame labels (index df) (rows df).

Definition is_missing (c : cell num) : bool :=
  match c with
  | CMissing => true
  | _ => false
  end.

(** [df.dropna(subset=[col])]: the rows with a missing value under [col]
    go, the others keep their index labels. *)
Definition dropna (df : DataFrame num) (col : str) : DataFrame num :=
  loc_mask df
    (map (fun row => forallb (fun j => negb (is_missing (nth j row CMissing)))
                             (positions_from 0 col (columns df)))
         (rows df)).

(** Lines 152-172: the copy of the session's table, relabelled, with its
    x-axis and plotted columns made numeric and the rows without x
    dropped. *)
Definition visualize (data_table : DataFrame num) : result view :=
  if negb (is_empty data_table) then
    let data := set_columns data_table
                  (map (fun col => upper (Str.strip col)) (columns data_table)) in
    let potential_x_axis := filter (Str.contains CHAINAGE) (columns data) in
    match potential_x_axis with
    | [] => Ok NoChainage
    | x_axis :: _ =>
        values <- to_numeric parse_number (getitem data x_axis) ;;
        let data := setitem data x_axis values in
        let numeric_columns :=
          filter (fun col => (if str_eq_dec col x_axis then false else true)
                             && negb (Str.contains DEPTH_TO_INVERT col))
                 (columns data) in
        data <- coerce_columns parse_number numeric_columns data ;;
        let data := dropna data x_axis in
        Ok (Plot x_axis numeric_columns data)
    end
  else Ok NoData.

End Visualization.

(** [str.upper] on ASCII text, used to run the model: the letters a..z
    go to A..Z, every other character stays. *)
Definition upper_ascii (s : str) : str :=
  map (fun c => let n := nat_of_ascii c in
                if (97 <=? n) && (n <=? 122) then ascii_of_nat (n - 32) else c) s.

(** A sample OCR output and the table expected from it. *)

Definition sample_text : str :=
  Str.join LF [lit "Profile along the main:";
               lit "| Chainage | **Depth** |";
               lit "|----------|-----------|";
               lit "| **0**    | 12        |";
               lit "| 10       | abc       |";
               lit "| Existing Levels | 99 |";
               lit "| 20 |"].

Definition sample_first : list str := [lit "Chainage"; lit "Depth"].

Definition sample_body : list (list str) :=
  [[lit "0"; lit "12"]; [lit "10"; lit "abc"];
   [lit "Existing Levels"; lit "99"]; [lit "20"]].

Definition sample_frame : DataFrame nat :=
  MkFrame sample_first [0; 1; 2]
    [[CStr (lit "0"); CNum 12];
     [CStr (lit "10"); CMissing];
     [CStr (lit "20"); CMissing]].

(** A table with a chainage that is not a number. *)
Definition survey_frame : DataFrame nat :=
  MkFrame [lit " Chainage (m)"; lit "Depth to Invert"; lit "Level"] [0; 1; 2]
    [[CStr (lit "0"); CNum 1; CStr (lit "5")];
     [CStr (lit "n/a"); CNum 2; CNum 6];
     [CStr (lit "10"); CMissing; CStr (lit "x")]].

Definition survey_plot_data : DataFrame nat :=
  MkFrame [lit "CHAINAGE (M)"; lit "DEPTH TO INVERT"; lit "LEVEL"] [0; 2]
    [[CNum 0; CNum 1; CNum 5]; [CNum 10; CMissing; CMissing]].

(** Labels around the sentinel. *)
Definition levels_text : str :=
  Str.join LF [lit "| Item | Level |";
               lit "| EXISTING LEVELS | 1 |";
               lit "| Proposed Levels (m) | 2 |";
               lit "| pre-existing levels (m) | 3 |";
               lit "| Existing  Levels | 4 |";
               lit "| ExIsTiNg LeVeLs | 5 |";
               lit "| EXISTING LEVEL | 6 |"].

Definition levels_frame : DataFrame nat :=
  MkFrame [lit "Item"; lit "Level"] [0; 1; 2]
    [[CStr (lit "Proposed Levels (m)"); CNum 2];
     [CStr (lit "Existing  Levels"); CNum 4];
     [CStr (lit "EXISTING LEVEL"); CNum 6]].

(** ** Vocabulary of the statements *)

(** A text seen as plain stretches and stretches wrapped in a pair of
    [**] markers. *)
Inductive piece : Type :=
| Plain (p : str)
| Wrapped (t : str).

Definition MARK : str := [STAR; STAR].

(** The text as written, markers included. *)
Definition render (ps : list piece) : str :=
  flat_map (fun x => match x with
                     | Plain p => p
                     | Wrapped t => MARK ++ t ++ MARK
                     end) ps.

(** The same text with every wrapped stretch replaced by what it wraps. *)
Definition unwrap (ps : list piece) : str :=
  flat_map (fun x => match x with
                     | Plain p => p
                     | Wrapped t => t
                     end) ps.

(** A plain stretch neither contains the marker nor ends in a star (which
    would make a marker with what follows); single stars are allowed.  A
    wrapped text stays on its line and neither contains the marker nor
    ends in a star (which would close the wrapper one character early). *)
Definition piece_ok (x : piece) : Prop :=
  match x with
  | Plain p => Str.contains MARK (p ++ [STAR]) = false
  | Wrapped t => Forall (fun c => c <> LF) t /\ Str.contains MARK (t ++ [STAR]) = false
  end.

(** Two characters that are the same up to the case of a letter A..Z. *)
Definition same_letter (p c : ascii) : Prop :=
  let a := nat_of_ascii p in
  let b := nat_of_ascii c in
  a = b \/ (65 <= a <= 90 /\ b = a + 32) \/ (65 <= b <= 90 /\ a = b + 32).

(** [label] has a stretch that reads as [w] up to letter case. *)
Definition mentions (w label : str) : Prop :=
  exists pre mid post, label = pre ++ mid ++ post /\ Forall2 same_letter w mid.

(** A text of whitespace only. *)
Definition blank (s : str) : Prop := Forall (fun c => Str.is_space c = true) s.

(** [cell] is [piece] without the whitespace around it: whitespace only
    before and after it in [piece], none at its own two ends. *)
Definition trimmed_of (piece cell : str) : Prop :=
  (exists l r, piece = l ++ cell ++ r /\ blank l /\ blank r) /\
  (cell = [] \/
   (exists a rest, cell = a :: rest /\ Str.is_space a = false) /\
   (exists init z, cell = init ++ [z] /\ Str.is_space z = false)).

(** A cell that can stand between two pipes and be read back: not empty,
    without surrounding whitespace, without pipe. *)
Definition plain_cell (c : str) : Prop :=
  c <> [] /\ Str.strip c = c /\ Forall (fun ch => ch <> PIPE) c.

(** A data line: it has a pipe and is not a separator. *)
Definition is_data_line (line : str) : bool :=
  Str.contains BAR line && negb (is_separator line).

(** A line free of the characters at which [splitlines] cuts. *)
Definition no_linebreak (line : str) : Prop :=
  Forall (fun c => Str.is_linebreak c = false) line.

(** A piece of text without the carriage return that may close it. *)
Fixpoint chop_cr (p : str) : str :=
  match p with
  | [] => []
  | c :: p' =>
      match p' with
      | [] => if Ascii.eqb c CR then [] else [c]
      | _ :: _ => c :: chop_cr p'
      end
  end.

(** A text whose line boundaries are LF or CR LF: cut at its line feeds,
    the pieces hold no line boundary but, at most, a closing CR.  The
    lines of such a text are these pieces without that CR. *)
Definition lf_terminated (text : str) : Prop :=
  Forall (fun p => no_linebreak (chop_cr p)) (Str.split LF text).

(** Such a text without its separator lines. *)
Definition delete_separator_lines (text : str) : str :=
  Str.join LF (filter (fun p => negb (is_separator (chop_cr p))) (Str.split LF text)).

(** A line of pipes and whitespace only. *)
Definition only_pipes_and_blanks (line : str) : Prop :=
  Forall (fun c => c = PIPE \/ Str.is_space c = true) line.

(** The sentinel filter on a (padded) row of strings. *)
Definition keep_row (row : list str) : bool :=
  negb (Str.contains_nocase SENTINEL (hd [] row)).

(** The shape repair of one row. *)
Definition pad_row (max_columns : nat) (row : list str) : list str :=
  row ++ repeat [] (max_columns - length row).

Section Coercion.

Variable num : Type.
Variable parse_number : str -> option num.

(** The coercion loop seen from one row: the label stays, every other
    cell goes through [to_numeric]. *)
Definition coerce_row (row : list (cell num)) : list (cell num) :=
  match row with
  | [] => []
  | label :: rest => label :: map (coerce_cell parse_number) rest
  end.

(** The rows of the result, from the header and body of the raw table. *)
Definition final_rows (first : list str) (body : list (list str))
  : list (list (cell num)) :=
  map (fun row => coerce_row (map CStr row))
      (filter keep_row (pad_rows (length first) body)).

Definition numeric_or_missing (c : cell num) : Prop :=
  c = CMissing \/ exists x, c = CNum x.

(** The cells at position [j] of the rows are numbers or missing. *)
Definition numeric_at (j : nat) (rs : list (list (cell num))) : Prop :=
  Forall (fun row => numeric_or_missing (nth j row CMissing)) rs.

End Coercion.

(** A collected table that the frame construction accepts. *)
Definition well_formed_table (table : list (list str)) : Prop :=
  match table with
  | [] => True
  | first :: body =>
      first <> [] /\ NoDup first /\
      Forall (fun row => length row <= length first) body
  end.

(** A cell as it is written in a table: not empty, without surrounding
    whitespace, without pipe, star or line boundary. *)
Definition clean_cell (c : str) : Prop :=
  c <> [] /\ Str.strip c = c /\
  Forall (fun ch => ch <> PIPE /\ ch <> STAR /\ Str.is_linebreak ch = false) c.

Definition SPACE : ascii := " "%char.

(** A row written the Markdown way: a pipe, then each cell between two
    spaces and followed by a pipe. *)
Definition render_row (cells : list str) : str :=
  PIPE :: flat_map (fun c => SPACE :: c ++ [SPACE; PIPE]) cells.

(** A row that can be written as one data line. *)
Definition clean_row (cells : list str) : Prop :=
  Forall clean_cell cells /\ Str.contains DASHES (render_row cells) = false.

(** A table written as text: header line, separator line, body lines. *)
Definition render_table (header : list str) (sep : str) (body : list (list str)) : str :=
  Str.join LF (render_row header :: sep :: map render_row body).

(** A text of LF-terminated lines without its lines that have no pipe. *)
Definition delete_prose_lines (text : str) : str :=
  Str.join LF (filter (fun p => Str.contains BAR (chop_cr p)) (Str.split LF text)).

(** * Properties *)

(** ** The emphasis substitution *)

Lemma sub_emphasis_cons c s :
  sub_emphasis (c :: s) =
  match match_emphasis (c :: s) with
  | Some (g, r) => g ++ sub_emphasis r
  | None => c :: sub_emphasis s
  end.
Proof.
  simp sub_emphasis.
  destruct (inspect (match_emphasis (c :: s))) as [[[g r]|] e];
    simp sub_emphasis; rewrite e; reflexivity.
Qed.

Lemma sub_emphasis_nil : sub_emphasis [] = [].
Proof. now simp sub_emphasis. Qed.

Lemma find_close_shape s g r :
  find_close s = Some (g, r) -> s = g ++ STAR :: STAR :: r.
Proof.
  revert g r. induction s as [|c s IH]; intros g r H; [discriminate|].
  cbn [find_close] in H.
  destruct (Str.starts_with [STAR; STAR] (c :: s)) eqn:E.
  - injection H as <- <-. cbn [Str.starts_with] in E.
    destruct s as [|d s]; [rewrite andb_false_r in E; discriminate|].
    rewrite andb_true_r in E. apply andb_prop in E as [E1 E2].
    apply Ascii.eqb_eq in E1, E2. subst. reflexivity.
  - destruct (Ascii.eqb c LF); [discriminate|].
    destruct (find_close s) as [[g' r']|]; [|discriminate].
    injection H as <- <-. cbn. f_equal. now apply IH.
Qed.

Lemma match_emphasis_shape s g r :
  match_emphasis s = Some (g, r) -> s = STAR :: STAR :: g ++ STAR :: STAR :: r.
Proof.
  destruct s as [|a [|b s]]; try discriminate. cbn [match_emphasis].
  destruct (Ascii.eqb a STAR) eqn:Ea; [|discriminate].
  destruct (Ascii.eqb b STAR) eqn:Eb; [|discriminate]. cbn.
  apply Ascii.eqb_eq in Ea, Eb. subst. intros H.
  now rewrite (find_close_shape _ H).
Qed.

Lemma match_emphasis_shorter s g r :
  match_emphasis s = Some (g, r) -> length r < length s.
Proof.
  intros H. rewrite (match_emphasis_shape _ H). cbn.
  rewrite length_app. cbn. lia.
Qed.

Lemma starts_with_mark_lf a b :
  Str.starts_with [STAR; STAR] (a ++ LF :: b) = Str.starts_with [STAR; STAR] a.
Proof.
  destruct a as [|c [|d a]]; cbn; try reflexivity.
Qed.

(** A group never extends over a LF: the search for the closing marker in
    [a ++ LF :: b] is the search in [a]. *)
Lemma find_close_lf a b :
  find_close (a ++ LF :: b) =
  match find_close a with
  | Some (g, r) => Some (g, r ++ LF :: b)
  | None => None
  end.
Proof.
  induction a as [|c a IH]; [reflexivity|].
  change ((c :: a) ++ LF :: b) with (c :: (a ++ LF :: b)).
  cbn [find_close].
  change (c :: a ++ LF :: b) with ((c :: a) ++ LF :: b).
  rewrite starts_with_mark_lf.
  destruct (Str.starts_with [STAR; STAR] (c :: a)) eqn:E.
  - destruct a as [|d a]; [cbn in E; now rewrite andb_false_r in E|reflexivity].
  - destruct (Ascii.eqb c LF); [reflexivity|].
    rewrite IH. now destruct (find_close a) as [[g r]|].
Qed.

Lemma match_emphasis_lf a b :
  match_emphasis (a ++ LF :: b) =
  match match_emphasis a with
  | Some (g, r) => Some (g, r ++ LF :: b)
  | None => None
  end.
Proof.
  destruct a as [|c [|d a]].
  - now destruct b.
  - cbn. now rewrite andb_false_r.
  - cbn [app match_emphasis].
    destruct (Ascii.eqb c STAR && Ascii.eqb d STAR); [apply find_close_lf|reflexivity].
Qed.

(** Strong induction on the length of a text. *)
Lemma str_length_ind (P : list ascii -> Prop) :
  (forall s, (forall t, length t < length s -> P t) -> P s) -> forall s, P s.
Proof.
  intros step s. remember (length s) as n eqn:E. revert s E.
  induction n as [n IH] using lt_wf_ind. intros s ->.
  apply step. intros t Ht. now apply (IH (length t)).
Qed.

Lemma sub_emphasis_lf a b :
  sub_emphasis (a ++ LF :: b) = sub_emphasis a ++ LF :: sub_emphasis b.
Proof.
  induction a as [a IH] using str_length_ind.
  destruct a as [|c a].
  - cbn [app]. rewrite sub_emphasis_cons, sub_emphasis_nil.
    change (LF :: b) with ([] ++ LF :: b). now rewrite match_emphasis_lf.
  - change ((c :: a) ++ LF :: b) with (c :: (a ++ LF :: b)).
    rewrite !sub_emphasis_cons.
    change (c :: a ++ LF :: b) with ((c :: a) ++ LF :: b).
    rewrite match_emphasis_lf.
    destruct (match_emphasis (c :: a)) as [[g r]|] eqn:E.
    + rewrite IH by now apply match_emphasis_shorter with (g := g).
      now rewrite app_assoc.
    + rewrite IH by (cbn; lia). reflexivity.
Qed.

Lemma match_emphasis_plain c s : c <> STAR -> match_emphasis (c :: s) = None.
Proof.
  intros Hc. destruct s as [|d s]; [reflexivity|]. cbn.
  apply Ascii.eqb_neq in Hc. now rewrite Hc.
Qed.

Lemma sub_emphasis_plain p r :
  Forall (fun c => c <> STAR) p -> sub_emphasis (p ++ r) = p ++ sub_emphasis r.
Proof.
  induction 1 as [|c p Hc _ IH]; [reflexivity|].
  cbn [app]. rewrite sub_emphasis_cons, match_emphasis_plain by assumption.
  now rewrite IH.
Qed.

(** The lazy group stops at the first closing marker. *)
Lemma find_close_wrapped t r :
  Forall (fun c => c <> LF) t ->
  Str.contains MARK (t ++ [STAR]) = false ->
  find_close (t ++ MARK ++ r) = Some (t, r).
Proof.
  induction 1 as [|c t Hc _ IH]; intros Hm; [reflexivity|].
  cbn [app Str.contains] in Hm. apply orb_false_elim in Hm as [Hs Hm].
  cbn [app find_close].
  assert (E : Str.starts_with [STAR; STAR] (c :: t ++ MARK ++ r) = false).
  { destruct t as [|d t]; [exact Hs|exact Hs]. }
  rewrite E. apply Ascii.eqb_neq in Hc. rewrite Hc.
  now rewrite (IH Hm).
Qed.

Lemma sub_emphasis_wrapped t r :
  Forall (fun c => c <> LF) t ->
  Str.contains MARK (t ++ [STAR]) = false ->
  sub_emphasis (MARK ++ t ++ MARK ++ r) = t ++ sub_emphasis r.
Proof.
  intros Hlf Hm. cbn [MARK app]. rewrite sub_emphasis_cons.
  cbn [match_emphasis]. rewrite Ascii.eqb_refl. cbn [andb].
  change (t ++ STAR :: STAR :: r) with (t ++ MARK ++ r).
  now rewrite (find_close_wrapped r Hlf Hm).
Qed.

Lemma contains_mark_cons c s :
  Str.contains MARK (c :: s) = false ->
  Str.starts_with MARK (c :: s) = false /\ Str.contains MARK s = false.
Proof.
  intros H. cbn [Str.contains] in H. now apply orb_false_elim in H.
Qed.

(** Where the text does not start with the marker, the pattern does not
    match. *)
Lemma match_emphasis_no_start s :
  Str.starts_with MARK s = false -> match_emphasis s = None.
Proof.
  destruct s as [|a [|b s]]; try reflexivity.
  cbn [MARK Str.starts_with match_emphasis]. rewrite andb_true_r.
  rewrite (Ascii.eqb_sym STAR a), (Ascii.eqb_sym STAR b).
  now intros ->.
Qed.

Lemma starts_with_mark_stretch c p r :
  Str.starts_with MARK (c :: p ++ [STAR]) = false ->
  Str.starts_with MARK (c :: p ++ r) = false.
Proof.
  destruct p as [|d p]; [|exact (fun H => H)].
  cbn [MARK app Str.starts_with]. rewrite Ascii.eqb_refl, andb_true_r.
  now intros ->.
Qed.

(** A stretch without marker that does not end in a star is copied,
    whatever follows it. *)
Lemma sub_emphasis_stretch p r :
  Str.contains MARK (p ++ [STAR]) = false ->
  sub_emphasis (p ++ r) = p ++ sub_emphasis r.
Proof.
  induction p as [|c p IH]; intros H; [reflexivity|].
  change ((c :: p) ++ [STAR]) with (c :: p ++ [STAR]) in H.
  apply contains_mark_cons in H as [Hs Hm].
  cbn [app]. rewrite sub_emphasis_cons.
  rewrite (match_emphasis_no_start _ (starts_with_mark_stretch _ _ r Hs)).
  now rewrite (IH Hm).
Qed.

Lemma sub_emphasis_render_app ps r :
  Forall piece_ok ps -> sub_emphasis (render ps ++ r) = unwrap ps ++ sub_emphasis r.
Proof.
  unfold render, unwrap.
  induction 1 as [|x ps Hx _ IH]; [reflexivity|].
  destruct x as [p|t]; cbn [flat_map piece_ok] in *; rewrite <- !app_assoc.
  - now rewrite (sub_emphasis_stretch _ _ Hx), IH.
  - destruct Hx as [Hlf Hm].
    now rewrite sub_emphasis_wrapped, IH.
Qed.



Ltac solve_chars :=
  repeat match goal with
         | |- Forall _ _ => constructor
         | |- _ /\ _ => split
         | |- _ <> _ => let E := fresh in intro E; discriminate E
         | |- _ = _ => reflexivity
         end.



Lemma sub_emphasis_join_lf (lines : list str) :
  sub_emphasis (Str.join LF lines) = Str.join LF (map sub_emphasis lines).
Proof.
  induction lines as [|l [|l' ls] IH]; [apply sub_emphasis_nil|reflexivity|].
  change (Str.join LF (l :: l' :: ls)) with (l ++ LF :: Str.join LF (l' :: ls)).
  rewrite sub_emphasis_lf, IH. reflexivity.
Qed.

(** An opening marker with nothing but plain text up to the end of its
    line stays where it is. *)
Lemma sub_emphasis_unclosed t :
  Forall (fun c => c <> STAR) t -> sub_emphasis (MARK ++ t) = MARK ++ t.
Proof.
  intros Ht. cbn [MARK app]. rewrite sub_emphasis_cons. cbn [match_emphasis].
  rewrite Ascii.eqb_refl. cbn [andb].
  assert (E : find_close t = None).
  { induction Ht as [|c t Hc _ IH]; [reflexivity|]. cbn [find_close].
    apply not_eq_sym, Ascii.eqb_neq in Hc. cbn [Str.starts_with]. rewrite Hc.
    cbn [andb]. rewrite IH. now destruct (Ascii.eqb c LF). }
  rewrite E. f_equal. rewrite sub_emphasis_cons.
  assert (Et : sub_emphasis t = t).
  { rewrite <- (app_nil_r t) at 1.
    now rewrite sub_emphasis_plain, sub_emphasis_nil, app_nil_r. }
  destruct Ht as [|c t Hc Ht]; cbn [match_emphasis].
  - now rewrite sub_emphasis_nil.
  - apply Ascii.eqb_neq in Hc. now rewrite Hc, andb_false_r, Et.
Qed.

(** Without a closing marker the search fails. *)
Lemma find_close_no_marker t :
  Str.contains MARK t = false -> find_close t = None.
Proof.
  induction t as [|c t IH]; intros H; [reflexivity|].
  apply contains_mark_cons in H as [Hs Hm].
  cbn [find_close]. change [STAR; STAR] with MARK. rewrite Hs, (IH Hm).
  now destruct (Ascii.eqb c LF).
Qed.

Lemma sub_emphasis_no_marker t :
  Str.contains MARK t = false -> sub_emphasis t = t.
Proof.
  induction t as [|c t IH]; intros H; [apply sub_emphasis_nil|].
  apply contains_mark_cons in H as [Hs Hm].
  now rewrite sub_emphasis_cons, (match_emphasis_no_start _ Hs), (IH Hm).
Qed.

(** An opening marker with no marker after it stays, and so does what
    follows it. *)
Lemma sub_emphasis_open_marker t :
  Str.contains MARK t = false -> sub_emphasis (MARK ++ t) = MARK ++ t.
Proof.
  intros Ht. cbn [MARK app]. rewrite sub_emphasis_cons. cbn [match_emphasis].
  rewrite Ascii.eqb_refl. cbn [andb]. rewrite (find_close_no_marker _ Ht).
  f_equal. rewrite sub_emphasis_cons, (sub_emphasis_no_marker _ Ht).
  destruct t as [|d t]; [reflexivity|]. cbn [match_emphasis].
  apply contains_mark_cons in Ht as [_ Ht].
  rewrite (find_close_no_marker _ Ht).
  now destruct (Ascii.eqb STAR STAR && Ascii.eqb d STAR).
Qed.

(** C10, as amended: the substitution never matches across a line feed; it
    acts on each LF-delimited line separately.  On a line that consists of
    plain stretches and closed wrappers, then an opening marker, then a
    rest without any marker, the wrappers before the opening marker are
    replaced by their inner texts and the opening marker and the rest of
    its line stay as they are, whatever the lines before and after hold:
    those are substituted on their own. *)
Theorem emphasis_is_per_line (lines before after : list str)
        (ps : list piece) (t : str) :
  Forall piece_ok ps ->
  Str.contains MARK t = false ->
  sub_emphasis (Str.join LF lines) = Str.join LF (map sub_emphasis lines) /\
  sub_emphasis (render ps ++ MARK ++ t) = unwrap ps ++ MARK ++ t /\
  sub_emphasis (Str.join LF (before ++ (render ps ++ MARK ++ t) :: after)) =
    Str.join LF (map sub_emphasis before ++
                 (unwrap ps ++ MARK ++ t) :: map sub_emphasis after).
Proof.
  intros Hps Ht. split; [apply sub_emphasis_join_lf|].
  assert (E : sub_emphasis (render ps ++ MARK ++ t) = unwrap ps ++ MARK ++ t).
  { now rewrite (sub_emphasis_render_app _ Hps), (sub_emphasis_open_marker _ Ht). }
  split; [exact E|].
  now rewrite sub_emphasis_join_lf, map_app, map_cons, E.
Qed.

Lemma emphasis_is_per_line_witness :
  let ps := [Plain (lit "| "); Wrapped (lit "x"); Plain (lit " | 2*3 | ")] in
  let t := lit "a*b | *c |" in
  let before := [lit "| **k |"; lit "| l** |"] in
  let after := [lit "| **b** | c** |"] in
  Forall piece_ok ps /\
  Str.contains MARK t = false /\
  render ps ++ MARK ++ t = lit "| **x** | 2*3 | **a*b | *c |" /\
  sub_emphasis (render ps ++ MARK ++ t) = lit "| x | 2*3 | **a*b | *c |" /\
  sub_emphasis (Str.join LF (before ++ (render ps ++ MARK ++ t) :: after)) =
    Str.join LF [lit "| **k |"; lit "| l** |"; lit "| x | 2*3 | **a*b | *c |";
                 lit "| b | c** |"].
Proof.
  intros ps t before after.
  assert (Hps : Forall piece_ok ps) by (unfold ps, piece_ok; solve_chars).
  assert (Ht : Str.contains MARK t = false) by reflexivity.
  split; [exact Hps|]. split; [exact Ht|]. split; [reflexivity|].
  destruct (@emphasis_is_per_line [] before after ps t Hps Ht) as [_ [E2 E3]].
  split; [rewrite E2|rewrite E3]; reflexivity.
Defined.

(** C10 as stated fails: the opening marker of the first line has its
    nearest following markers on the second line, and those are removed
    (as a pair of their own), not left unchanged. *)
Lemma emphasis_next_line_markers_removed :
  let s := lit "**a" ++ LF :: lit "**b**" in
  Str.splitlines s = [lit "**a"; lit "**b**"] /\
  sub_emphasis s = lit "**a" ++ LF :: lit "b" /\
  sub_emphasis s <> s.
Proof.
  cbv zeta. split; [reflexivity|]. split; [reflexivity|].
  intro E. vm_compute in E. discriminate E.
Qed.

(** ** Trimming, splitting, searching *)

Lemma lstrip_idem s : Str.lstrip (Str.lstrip s) = Str.lstrip s.
Proof.
  induction s as [|c s IH]; [reflexivity|]. cbn.
  destruct (Str.is_space c) eqn:E; [exact IH|]. cbn. now rewrite E.
Qed.

Lemma rstrip_idem s : Str.rstrip (Str.rstrip s) = Str.rstrip s.
Proof.
  induction s as [|c s IH]; [reflexivity|]. cbn [Str.rstrip].
  destruct (Str.rstrip s) as [|d r] eqn:E.
  - destruct (Str.is_space c) eqn:Ec; [reflexivity|]. cbn. now rewrite Ec.
  - cbn [Str.rstrip] in *. now rewrite IH.
Qed.

Lemma lstrip_rstrip s : Str.lstrip (Str.rstrip s) = Str.rstrip (Str.lstrip s).
Proof.
  induction s as [|c s IH]; [reflexivity|]. cbn [Str.rstrip Str.lstrip].
  destruct (Str.is_space c) eqn:Ec.
  - rewrite <- IH. destruct (Str.rstrip s); [reflexivity|].
    cbn [Str.lstrip]. now rewrite Ec.
  - cbn [Str.rstrip]. destruct (Str.rstrip s); cbn [Str.lstrip]; now rewrite Ec.
Qed.

Lemma strip_idem s : Str.strip (Str.strip s) = Str.strip s.
Proof.
  unfold Str.strip. now rewrite lstrip_rstrip, rstrip_idem, lstrip_idem.
Qed.

Lemma lstrip_blank s : forallb Str.is_space s = true -> Str.lstrip s = [].
Proof.
  induction s as [|c s IH]; [reflexivity|]. cbn.
  intros H. apply andb_prop in H as [-> H]. now apply IH.
Qed.

Lemma strip_blank s : forallb Str.is_space s = true -> Str.strip s = [].
Proof. intros H. unfold Str.strip. now rewrite lstrip_blank. Qed.

Lemma split_not_nil d s : Str.split d s <> [].
Proof.
  destruct s as [|c s]; [discriminate|]. cbn.
  destruct (Ascii.eqb c d); [discriminate|]. now destruct (Str.split d s).
Qed.

Lemma join_cons sep p q ps :
  Str.join sep (p :: q :: ps) = p ++ sep :: Str.join sep (q :: ps).
Proof. reflexivity. Qed.

(** The pieces of a split, put back around the separator, are the line. *)
Lemma join_split d s : Str.join d (Str.split d s) = s.
Proof.
  induction s as [|c s IH]; [reflexivity|]. cbn [Str.split].
  destruct (Ascii.eqb c d) eqn:E.
  - apply Ascii.eqb_eq in E. subst c.
    destruct (Str.split d s) as [|p ps] eqn:Es; [now apply split_not_nil in Es|].
    rewrite join_cons, IH. reflexivity.
  - destruct (Str.split d s) as [|p [|q ps]] eqn:Es.
    + now apply split_not_nil in Es.
    + cbn in *. now rewrite IH.
    + rewrite join_cons in *. cbn [app]. now rewrite IH.
Qed.

(** No piece of a split holds the separator; every piece is made of
    characters of the line. *)
Lemma split_pieces (P : ascii -> Prop) d s :
  Forall P s ->
  Forall (fun p => Forall (fun c => P c /\ c <> d) p) (Str.split d s).
Proof.
  induction 1 as [|c s Hc _ IH]; [repeat constructor|]. cbn [Str.split].
  destruct (Ascii.eqb c d) eqn:E.
  - constructor; [constructor|exact IH].
  - apply Ascii.eqb_neq in E.
    destruct (Str.split d s) as [|p ps]; [repeat constructor; assumption|].
    inversion IH; subst. constructor; [|assumption].
    constructor; [split|]; assumption.
Qed.

Lemma comprehension_filter {A B} (f : A -> B) (keep : B -> bool) (l : list A) :
  flat_map (fun x => if keep (f x) then [f x] else []) l = filter keep (map f l).
Proof.
  induction l as [|x l IH]; [reflexivity|]. cbn. rewrite IH.
  now destruct (keep (f x)).
Qed.

Lemma tokenize_filter line :
  tokenize line = filter truthy (map Str.strip (Str.split PIPE line)).
Proof. apply comprehension_filter. Qed.

Lemma tokenize_cells line :
  Forall (fun cell => cell <> [] /\ Str.strip cell = cell) (tokenize line).
Proof.
  rewrite tokenize_filter. apply Forall_forall. intros cell Hin.
  apply filter_In in Hin as [Hin Ht]. split; [now destruct cell|].
  apply in_map_iff in Hin as [p [<- _]]. apply strip_idem.
Qed.

Lemma tokenize_blank line : only_pipes_and_blanks line -> tokenize line = [].
Proof.
  intros H. rewrite tokenize_filter.
  pose proof (split_pieces PIPE H) as Hp.
  induction Hp as [|p ps Hp _ IH]; [reflexivity|]. cbn [map filter].
  rewrite strip_blank; [exact IH|].
  apply forallb_forall. intros c Hc.
  rewrite Forall_forall in Hp. destruct (Hp c Hc) as [[E|E] Hn]; [contradiction|exact E].
Qed.

(** What [lstrip] drops is whitespace, and what it leaves does not start
    with whitespace. *)
Lemma lstrip_split s : exists l, s = l ++ Str.lstrip s /\ blank l.
Proof.
  induction s as [|c s [l [E Hl]]]; [exists []; split; [reflexivity|constructor]|].
  cbn [Str.lstrip]. destruct (Str.is_space c) eqn:Ec.
  - exists (c :: l). split; [cbn; now rewrite <- E|now constructor].
  - exists []. split; [reflexivity|constructor].
Qed.

Lemma lstrip_head s :
  Str.lstrip s = [] \/
  exists a rest, Str.lstrip s = a :: rest /\ Str.is_space a = false.
Proof.
  induction s as [|c s IH]; [now left|]. cbn [Str.lstrip].
  destruct (Str.is_space c) eqn:Ec; [exact IH|]. right. now exists c, s.
Qed.

(** What [rstrip] drops is whitespace, and what it leaves does not end in
    whitespace and starts as the text does. *)
Lemma rstrip_split s : exists r, s = Str.rstrip s ++ r /\ blank r.
Proof.
  induction s as [|c s [r [E Hr]]]; [exists []; split; [reflexivity|constructor]|].
  cbn [Str.rstrip]. destruct (Str.rstrip s) as [|d q] eqn:Eq.
  - cbn [app] in E. subst r. destruct (Str.is_space c) eqn:Ec.
    + exists (c :: s). split; [reflexivity|now constructor].
    + exists s. split; [reflexivity|exact Hr].
  - exists r. split; [cbn [app] in *; now rewrite <- E|exact Hr].
Qed.

Lemma rstrip_last s :
  Str.rstrip s = [] \/
  exists init z, Str.rstrip s = init ++ [z] /\ Str.is_space z = false.
Proof.
  induction s as [|c s IH]; [now left|]. cbn [Str.rstrip].
  destruct (Str.rstrip s) as [|d q] eqn:Eq.
  - destruct (Str.is_space c) eqn:Ec; [now left|]. right. now exists [], c.
  - right. destruct IH as [IH|[init [z [E Hz]]]]; [discriminate|].
    exists (c :: init), z. split; [cbn [app]; now rewrite <- E|exact Hz].
Qed.

Lemma rstrip_head a s :
  Str.is_space a = false -> exists rest, Str.rstrip (a :: s) = a :: rest.
Proof.
  intros Ha. cbn [Str.rstrip]. destruct (Str.rstrip s) as [|d q].
  - rewrite Ha. now exists [].
  - now exists (d :: q).
Qed.

(** [strip] gives the text without the whitespace around it. *)
Lemma strip_trimmed p : trimmed_of p (Str.strip p).
Proof.
  unfold Str.strip. destruct (lstrip_split p) as [l [El Hl]].
  destruct (rstrip_split (Str.lstrip p)) as [r [Er Hr]]. split.
  - exists l, r. split; [now rewrite <- Er|now split].
  - destruct (lstrip_head p) as [E|[a [rest [E Ha]]]].
    + left. now rewrite E.
    + right. split.
      * rewrite E. destruct (@rstrip_head a rest Ha) as [rest' ->]. now exists a, rest'.
      * destruct (rstrip_last (Str.lstrip p)) as [E'|H]; [|exact H].
        rewrite E in E'. destruct (@rstrip_head a rest Ha) as [rest' E2].
        rewrite E2 in E'. discriminate E'.
Qed.

Lemma blank_forallb s : blank s <-> forallb Str.is_space s = true.
Proof.
  unfold blank. rewrite Forall_forall, forallb_forall. reflexivity.
Qed.

(** The trimmed piece is empty exactly when the piece is whitespace
    only. *)
Lemma strip_truthy p : truthy (Str.strip p) = negb (forallb Str.is_space p).
Proof.
  destruct (forallb Str.is_space p) eqn:E.
  - now rewrite strip_blank.
  - destruct (Str.strip p) as [|c q] eqn:Es; [|reflexivity].
    destruct (strip_trimmed p) as [[l [r [Ep [Hl Hr]]]] _].
    rewrite Es in Ep. cbn [app] in Ep.
    assert (Hb : blank p) by (rewrite Ep; apply Forall_app; now split).
    apply blank_forallb in Hb. congruence.
Qed.

(** The cells of a line are its pieces that are not whitespace only, each
    without the whitespace around it, in order. *)
Lemma tokenize_trimmed line :
  Forall2 trimmed_of
          (filter (fun p => negb (forallb Str.is_space p)) (Str.split PIPE line))
          (tokenize line).
Proof.
  rewrite tokenize_filter.
  induction (Str.split PIPE line) as [|p ps IH]; [constructor|].
  cbn [map filter]. rewrite strip_truthy.
  destruct (negb (forallb Str.is_space p)); [|exact IH].
  constructor; [apply strip_trimmed|exact IH].
Qed.

Lemma map_strip_tokenize line : map Str.strip (tokenize line) = tokenize line.
Proof.
  pose proof (tokenize_cells line) as H.
  induction H as [|c cs [_ Hc] _ IH]; [reflexivity|]. cbn. now rewrite Hc, IH.
Qed.

Lemma starts_with_iff w s :
  Str.starts_with w s = true <-> exists y, s = w ++ y.
Proof.
  revert s. induction w as [|a w IH]; intros s; cbn.
  - split; [now exists s|reflexivity].
  - destruct s as [|c s].
    + split; [discriminate|]. now intros [y Hy].
    + rewrite andb_true_iff, Ascii.eqb_eq, IH. split.
      * intros [-> [y ->]]. now exists y.
      * intros [y Hy]. injection Hy as -> ->. split; [reflexivity|now exists y].
Qed.

Lemma contains_iff w s :
  Str.contains w s = true <-> exists x y, s = x ++ w ++ y.
Proof.
  induction s as [|c s IH]; cbn [Str.contains]; rewrite orb_true_iff, starts_with_iff.
  - split.
    + intros [[y Hy]|H]; [|discriminate]. now exists [], y.
    + intros [x [y H]]. left. destruct x; [now exists y|discriminate].
  - rewrite IH. split.
    + intros [[y Hy]|[x [y Hy]]]; [now exists [], y|].
      exists (c :: x), y. now rewrite Hy.
    + intros [x [y H]]. destruct x as [|d x]; [left; now exists y|].
      right. injection H as -> ->. now exists x, y.
Qed.

(** ** Letter case *)

Lemma nat_of_lower c :
  nat_of_ascii (Str.lower c) =
  if (65 <=? nat_of_ascii c) && (nat_of_ascii c <=? 90)
  then nat_of_ascii c + 32 else nat_of_ascii c.
Proof.
  unfold Str.lower. cbv zeta.
  destruct (Nat.leb_spec 65 (nat_of_ascii c)), (Nat.leb_spec (nat_of_ascii c) 90);
    cbn [andb]; try reflexivity.
  apply nat_ascii_embedding. lia.
Qed.

(** Two characters fold to the same character exactly when they are the
    same up to the case of a letter A..Z. *)
Lemma lower_same p c : Str.lower p = Str.lower c <-> same_letter p c.
Proof.
  unfold same_letter. cbv zeta. split.
  - intros E. apply (f_equal nat_of_ascii) in E. rewrite !nat_of_lower in E.
    destruct (Nat.leb_spec 65 (nat_of_ascii p)), (Nat.leb_spec (nat_of_ascii p) 90),
      (Nat.leb_spec 65 (nat_of_ascii c)), (Nat.leb_spec (nat_of_ascii c) 90);
      cbn [andb] in E; lia.
  - intros H.
    rewrite <- (ascii_nat_embedding (Str.lower p)), <- (ascii_nat_embedding (Str.lower c)).
    f_equal. rewrite !nat_of_lower.
    destruct (Nat.leb_spec 65 (nat_of_ascii p)), (Nat.leb_spec (nat_of_ascii p) 90),
      (Nat.leb_spec 65 (nat_of_ascii c)), (Nat.leb_spec (nat_of_ascii c) 90);
      cbn [andb]; lia.
Qed.

Lemma map_lower_same w mid :
  map Str.lower w = map Str.lower mid <-> Forall2 same_letter w mid.
Proof.
  revert mid. induction w as [|a w IH]; intros [|b mid]; cbn [map].
  - split; [constructor|reflexivity].
  - split; [discriminate|]. intros H. inversion H.
  - split; [discriminate|]. intros H. inversion H.
  - split.
    + intros E. injection E as Ea Ew. constructor; [now apply lower_same|now apply IH].
    + intros H. inversion H; subst. f_equal; [now apply lower_same|now apply IH].
Qed.

(** The case-insensitive search finds the pattern exactly in the texts that
    have a stretch reading as the pattern up to letter case. *)
Lemma contains_nocase_mentions w s :
  Str.contains_nocase w s = true <-> mentions w s.
Proof.
  unfold Str.contains_nocase, mentions. rewrite contains_iff. split.
  - intros [x [y E]].
    apply map_eq_app in E as [pre [tl [-> [_ E]]]].
    apply map_eq_app in E as [mid [post [-> [Em _]]]].
    exists pre, mid, post. split; [reflexivity|].
    apply map_lower_same. now symmetry.
  - intros [pre [mid [post [-> H]]]].
    exists (map Str.lower pre), (map Str.lower post). rewrite !map_app.
    apply map_lower_same in H. now rewrite H.
Qed.

(** ** The scan *)

Lemma scan_step_data st line :
  table_data (scan_step st line) =
  table_data st ++ (if is_data_line line then [tokenize line] else []).
Proof.
  unfold scan_step, is_data_line.
  destruct (is_separator line), (Str.contains BAR line);
    cbn [andb negb table_data]; now rewrite ?app_nil_r.
Qed.

Lemma scan_fold_data lines st :
  table_data (fold_left scan_step lines st) =
  table_data st ++ map tokenize (filter is_data_line lines).
Proof.
  revert st. induction lines as [|l lines IH]; intros st; cbn [fold_left filter].
  - now rewrite app_nil_r.
  - rewrite IH, scan_step_data. destruct (is_data_line l); cbn [map].
    + now rewrite <- app_assoc.
    + now rewrite app_nil_r.
Qed.

(** The collected rows are the tokenized data lines, in order; the flag
    set by the separators takes no part in them. *)
Lemma scan_lines_data lines :
  table_data (scan_lines lines) = map tokenize (filter is_data_line lines).
Proof. apply (scan_fold_data lines (ScanState false [])). Qed.

Lemma scan_flag_inert lines flag :
  table_data (fold_left scan_step lines (ScanState flag [])) =
  table_data (scan_lines lines).
Proof. now rewrite scan_lines_data, scan_fold_data. Qed.

Lemma raw_table_data text :
  raw_table text =
  map tokenize (filter is_data_line (Str.splitlines (sub_emphasis text))).
Proof. apply scan_lines_data. Qed.

(** C7: a data line is tokenized into exactly the non-empty trimmed
    pieces between its pipes, in order: the pieces are what stands between
    the pipes of the line; the pieces of whitespace only (empty ones and
    those next to a leading or trailing pipe included) are dropped; each
    cell is its piece without the whitespace around it, so it neither
    starts nor ends with whitespace and is not empty; and a line of pipes
    and whitespace only gives the empty sequence, which is appended to the
    collected rows all the same. *)
Theorem tokenize_keeps_nonempty_trimmed (st : scan_state) (line : str) :
  is_data_line line = true ->
  tokenize line = filter truthy (map Str.strip (Str.split PIPE line)) /\
  Str.join PIPE (Str.split PIPE line) = line /\
  Forall (fun piece => ~ In PIPE piece) (Str.split PIPE line) /\
  Forall (fun cell => cell <> [] /\ Str.strip cell = cell) (tokenize line) /\
  table_data (scan_step st line) = table_data st ++ [tokenize line] /\
  (only_pipes_and_blanks line ->
   tokenize line = [] /\ table_data (scan_step st line) = table_data st ++ [[]]) /\
  Forall2 trimmed_of
          (filter (fun piece => negb (forallb Str.is_space piece))
                  (Str.split PIPE line))
          (tokenize line) /\
  Forall (fun cell => exists a mid z,
            (cell = [a] /\ z = a \/ cell = a :: mid ++ [z]) /\
            Str.is_space a = false /\ Str.is_space z = false)
         (tokenize line).
Proof.
  intros Hd.
  assert (Hs : table_data (scan_step st line) = table_data st ++ [tokenize line])
    by now rewrite scan_step_data, Hd.
  split; [apply tokenize_filter|]. split; [apply join_split|]. split.
  { assert (Ht : Forall (fun _ : ascii => True) line) by now apply Forall_forall.
    eapply Forall_impl; [|exact (split_pieces PIPE Ht)].
    intros p Hp Hin. rewrite Forall_forall in Hp. now destruct (Hp _ Hin). }
  split; [apply tokenize_cells|]. split; [exact Hs|]. split.
  { intros Hb. split; [now apply tokenize_blank|].
    rewrite Hs. now rewrite tokenize_blank. }
  split; [apply tokenize_trimmed|].
  apply Forall_forall. intros cell Hin.
  pose proof (tokenize_cells line) as Hc. rewrite Forall_forall in Hc.
  destruct (Hc _ Hin) as [Hne Hst].
  destruct (strip_trimmed cell) as [_ [E|[[a [rest [Ea Ha]]] [init [z [Ez Hz]]]]]];
    rewrite Hst in *; [contradiction|].
  exists a. destruct init as [|b init].
  - exists [], z. cbn [app] in Ez. split; [left|now split].
    rewrite Ez in Ea. injection Ea as ->. now split.
  - exists init, z. split; [right|now split].
    rewrite Ez in Ea. cbn [app] in Ea. injection Ea as -> _. exact Ez.
Qed.

Lemma tokenize_keeps_nonempty_trimmed_witness :
  let line := lit "| |  ||" in
  let row := lit "|  Chainage | | Depth to  Invert |x" in
  let st := ScanState false [[lit "a"; lit "b"]] in
  (is_data_line line = true /\ only_pipes_and_blanks line /\
   Str.split PIPE line = [[]; lit " "; lit "  "; []; []] /\
   tokenize line = [] /\
   table_data (scan_step st line) = [[lit "a"; lit "b"]; []]) /\
  (is_data_line row = true /\
   Str.split PIPE row =
     [[]; lit "  Chainage "; lit " "; lit " Depth to  Invert "; lit "x"] /\
   Forall2 trimmed_of
           [lit "  Chainage "; lit " Depth to  Invert "; lit "x"]
           [lit "Chainage"; lit "Depth to  Invert"; lit "x"] /\
   table_data (scan_step st row) =
     [[lit "a"; lit "b"]; [lit "Chainage"; lit "Depth to  Invert"; lit "x"]]).
Proof.
  intros line row st. split.
  - assert (Hd : is_data_line line = true) by reflexivity.
    assert (Hb : only_pipes_and_blanks line).
    { unfold line, only_pipes_and_blanks.
      repeat constructor; (now left) || (now right). }
    destruct (tokenize_keeps_nonempty_trimmed st line Hd)
      as (_ & _ & _ & _ & _ & Hblank & _).
    destruct (Hblank Hb) as [Ht Hs].
    split; [exact Hd|]. split; [exact Hb|]. split; [reflexivity|].
    split; [exact Ht|exact Hs].
  - assert (Hd : is_data_line row = true) by reflexivity.
    destruct (tokenize_keeps_nonempty_trimmed st row Hd)
      as (_ & _ & _ & _ & Hs & _ & Htrim & _).
    split; [exact Hd|]. split; [reflexivity|].
    split; [exact Htrim|exact Hs].
Defined.

Example tokenize_ex :
  tokenize (lit "|  Chainage | | Depth to Invert |x") =
  [lit "Chainage"; lit "Depth to Invert"; lit "x"].
Proof. reflexivity. Qed.

(** ** What the substitution leaves in place *)

Lemma find_close_plain_prefix w y :
  Forall (fun c => c <> STAR /\ c <> LF) w ->
  find_close (w ++ y) =
  match find_close y with
  | Some (g, r) => Some (w ++ g, r)
  | None => None
  end.
Proof.
  induction 1 as [|c w [Hs Hl] _ IH].
  { cbn [app]. destruct (find_close y) as [[g r]|]; reflexivity. }
  cbn [app find_close Str.starts_with].
  apply not_eq_sym, Ascii.eqb_neq in Hs. apply Ascii.eqb_neq in Hl.
  rewrite Hs, Hl, IH. cbn [andb]. now destruct (find_close y) as [[g r]|].
Qed.

(** A group found in [x ++ w ++ y], [w] plain, either closes inside [x] or
    runs through the whole of [w]. *)
Lemma find_close_through x a w y g r :
  Forall (fun c => c <> STAR /\ c <> LF) (a :: w) ->
  find_close (x ++ (a :: w) ++ y) = Some (g, r) ->
  (exists r0, find_close x = Some (g, r0) /\ r = r0 ++ (a :: w) ++ y) \/
  (exists g2, g = x ++ (a :: w) ++ g2).
Proof.
  intros Hw. revert g. induction x as [|c x IH]; intros g H.
  - right. cbn [app] in H. change (a :: w ++ y) with ((a :: w) ++ y) in H.
    rewrite (find_close_plain_prefix y Hw) in H.
    destruct (find_close y) as [[g2 r2]|]; [|discriminate].
    injection H as <- _. now exists g2.
  - change ((c :: x) ++ (a :: w) ++ y) with (c :: (x ++ (a :: w) ++ y)) in H.
    cbn [find_close] in H.
    destruct (Str.starts_with [STAR; STAR] (c :: x ++ (a :: w) ++ y)) eqn:E.
    + left. injection H as <- <-.
      destruct x as [|d x].
      * exfalso. cbn in E. inversion Hw as [|? ? [Ha _] _]; subst.
        apply not_eq_sym, Ascii.eqb_neq in Ha.
        now rewrite Ha, andb_false_r in E.
      * exists x. cbn [find_close]. cbn [app] in E. cbn [Str.starts_with] in *.
        now rewrite E.
    + destruct (Ascii.eqb c LF) eqn:El; [discriminate|].
      destruct (find_close (x ++ (a :: w) ++ y)) as [[g' r']|] eqn:Ef; [|discriminate].
      injection H as <- <-.
      destruct (IH g' eq_refl) as [[r0 [H0 ->]]|[g2 ->]].
      * left. exists r0. split; [|reflexivity]. cbn [find_close].
        assert (E' : Str.starts_with [STAR; STAR] (c :: x) = false).
        { destruct x as [|d x]; [cbn; now rewrite andb_false_r|exact E]. }
        now rewrite E', El, H0.
      * right. now exists g2.
Qed.

Lemma sub_emphasis_keeps a w :
  Forall (fun c => c <> STAR /\ c <> LF) (a :: w) ->
  forall x y, exists x' y', sub_emphasis (x ++ (a :: w) ++ y) = x' ++ (a :: w) ++ y'.
Proof.
  intros Hw x. induction x as [x IH] using str_length_ind. intros y.
  destruct x as [|c x].
  - exists [], (sub_emphasis y). cbn [app].
    change (a :: w ++ y) with ((a :: w) ++ y). apply sub_emphasis_plain.
    eapply Forall_impl; [|exact Hw]. now intros ? [? _].
  - change ((c :: x) ++ (a :: w) ++ y) with (c :: (x ++ (a :: w) ++ y)).
    rewrite sub_emphasis_cons.
    destruct (match_emphasis (c :: x ++ (a :: w) ++ y)) as [[g r]|] eqn:E.
    + destruct x as [|d x].
      * exfalso. cbn in E. inversion Hw as [|? ? [Ha _] _]; subst.
        apply Ascii.eqb_neq in Ha. now rewrite Ha, andb_false_r in E.
      * cbn [app match_emphasis] in E.
        destruct (Ascii.eqb c STAR && Ascii.eqb d STAR); [|discriminate].
        destruct (find_close_through x y Hw E) as [[r0 [H0 ->]]|[g2 ->]].
        -- apply find_close_shape in H0 as Hx.
           destruct (IH r0) with (y := y) as [x' [y' Hr]].
           { rewrite Hx. cbn. rewrite length_app. cbn. lia. }
           exists (g ++ x'), y'. now rewrite Hr, <- app_assoc.
        -- exists x, (g2 ++ sub_emphasis r). now rewrite <- !app_assoc.
    + destruct (IH x) with (y := y) as [x' [y' Hr]]; [cbn; lia|].
      exists (c :: x'), y'. now rewrite Hr.
Qed.

Lemma contains_sub_emphasis a w s :
  Forall (fun c => c <> STAR /\ c <> LF) (a :: w) ->
  Str.contains (a :: w) s = true ->
  Str.contains (a :: w) (sub_emphasis s) = true.
Proof.
  intros Hw H. apply contains_iff in H as [x [y ->]].
  destruct (sub_emphasis_keeps Hw x y) as [x' [y' ->]].
  apply contains_iff. now exists x', y'.
Qed.

(** A separator line of the raw text is still one once stripped. *)
Lemma is_separator_sub_emphasis line :
  is_separator line = true -> is_separator (sub_emphasis line) = true.
Proof.
  unfold is_separator. rewrite !andb_true_iff. intros [Hb Hd]. split.
  - apply contains_sub_emphasis; [solve_chars|exact Hb].
  - apply contains_sub_emphasis; [unfold DASHES; solve_chars|exact Hd].
Qed.

Lemma sub_emphasis_Forall (P : ascii -> Prop) s :
  Forall P s -> Forall P (sub_emphasis s).
Proof.
  induction s as [s IH] using str_length_ind. intros H.
  destruct s as [|c s]; [now rewrite sub_emphasis_nil|].
  rewrite sub_emphasis_cons.
  destruct (match_emphasis (c :: s)) as [[g r]|] eqn:E.
  - pose proof (match_emphasis_shorter _ E) as Hlt.
    apply match_emphasis_shape in E. rewrite E in H.
    inversion H as [|? ? _ H1]; subst. inversion H1 as [|? ? _ H2]; subst.
    apply Forall_app in H2 as [Hg H3].
    inversion H3 as [|? ? _ H4]; subst. inversion H4 as [|? ? _ Hr]; subst.
    apply Forall_app. split; [exact Hg|]. now apply IH.
  - inversion H; subst. constructor; [assumption|]. apply IH; [cbn; lia|assumption].
Qed.

(** ** Lines *)

Lemma splitlines_line_lf l rest :
  no_linebreak l -> Str.splitlines (l ++ LF :: rest) = l :: Str.splitlines rest.
Proof.
  unfold Str.splitlines. induction 1 as [|c l Hc _ IH]; [reflexivity|].
  cbn [app Str.splitlines_from andb]. now rewrite Hc, IH.
Qed.

Lemma splitlines_line_crlf l rest :
  no_linebreak l ->
  Str.splitlines (l ++ CR :: LF :: rest) = l :: Str.splitlines rest.
Proof.
  unfold Str.splitlines. induction 1 as [|c l Hc _ IH]; [reflexivity|].
  cbn [app Str.splitlines_from andb]. now rewrite Hc, IH.
Qed.

Lemma splitlines_single l :
  no_linebreak l -> Str.splitlines l = if truthy l then [l] else [].
Proof.
  unfold Str.splitlines. induction 1 as [|c l Hc Hl IH]; [reflexivity|].
  cbn [Str.splitlines_from andb truthy]. rewrite Hc, IH. now destruct l.
Qed.

Lemma splitlines_single_cr l :
  no_linebreak l -> Str.splitlines (l ++ [CR]) = [l].
Proof.
  unfold Str.splitlines. induction 1 as [|c l Hc Hl IH]; [reflexivity|].
  cbn [app Str.splitlines_from andb]. now rewrite Hc, IH.
Qed.

Lemma chop_cr_cases p : p = chop_cr p \/ p = chop_cr p ++ [CR].
Proof.
  induction p as [|c p IH]; [now left|]. destruct p as [|d p].
  - cbn. destruct (Ascii.eqb c CR) eqn:E; [right|now left].
    apply Ascii.eqb_eq in E. now subst.
  - change (chop_cr (c :: d :: p)) with (c :: chop_cr (d :: p)).
    destruct IH as [IH|IH]; [left|right]; cbn [app]; now rewrite <- IH.
Qed.

Lemma chop_cr_plain l : no_linebreak l -> chop_cr l = l.
Proof.
  induction 1 as [|c l Hc _ IH]; [reflexivity|]. destruct l as [|d l].
  - cbn. destruct (Ascii.eqb c CR) eqn:E; [|reflexivity].
    apply Ascii.eqb_eq in E. subst c. discriminate Hc.
  - change (chop_cr (c :: d :: l)) with (c :: chop_cr (d :: l)). now rewrite IH.
Qed.

Lemma chop_cr_snoc l : chop_cr (l ++ [CR]) = l.
Proof.
  induction l as [|c l IH]; [reflexivity|]. cbn [app].
  destruct (l ++ [CR]) as [|d q] eqn:E; [now destruct l|].
  change (chop_cr (c :: d :: q)) with (c :: chop_cr (d :: q)). now rewrite IH.
Qed.

Lemma scan_last_piece p st :
  no_linebreak (chop_cr p) ->
  fold_left scan_step (Str.splitlines p) st = scan_step st (chop_cr p).
Proof.
  remember (chop_cr p) as l eqn:El. intros Hl.
  destruct (chop_cr_cases p) as [E|E]; rewrite <- El in E; subst p.
  - rewrite (splitlines_single Hl). now destruct l.
  - now rewrite (splitlines_single_cr Hl).
Qed.

Lemma splitlines_piece_lf p rest :
  no_linebreak (chop_cr p) ->
  Str.splitlines (p ++ LF :: rest) = chop_cr p :: Str.splitlines rest.
Proof.
  remember (chop_cr p) as l eqn:El. intros Hl.
  destruct (chop_cr_cases p) as [E|E]; rewrite <- El in E; subst p.
  - now apply splitlines_line_lf.
  - rewrite <- app_assoc. now apply splitlines_line_crlf.
Qed.

(** Scanning the lines of a text cut at its line feeds is scanning the
    pieces without their closing CR. *)
Lemma scan_splitlines_join ps st :
  Forall (fun p => no_linebreak (chop_cr p)) ps ->
  fold_left scan_step (Str.splitlines (Str.join LF ps)) st =
  fold_left scan_step (map chop_cr ps) st.
Proof.
  intros H. revert st. induction H as [|p ps Hp Hps IH]; intros st; [reflexivity|].
  destruct ps as [|q ps].
  - cbn [Str.join map fold_left]. now apply scan_last_piece.
  - rewrite join_cons, splitlines_piece_lf by exact Hp. cbn [fold_left map]. apply IH.
Qed.

Lemma find_close_snoc x c :
  c <> STAR ->
  find_close (x ++ [c]) =
  match find_close x with
  | Some (g, r) => Some (g, r ++ [c])
  | None => None
  end.
Proof.
  intros Hc. apply not_eq_sym, Ascii.eqb_neq in Hc.
  induction x as [|d x IH].
  - cbn. rewrite Hc, andb_false_r. now destruct (Ascii.eqb c LF).
  - cbn [app find_close].
    assert (E : Str.starts_with [STAR; STAR] (d :: x ++ [c]) =
                Str.starts_with [STAR; STAR] (d :: x)).
    { destruct x as [|e x]; [|reflexivity]. cbn. now rewrite Hc, !andb_false_r. }
    rewrite E. destruct (Str.starts_with [STAR; STAR] (d :: x)) eqn:Es.
    + destruct x as [|e x]; [|reflexivity]. cbn in Es. now rewrite andb_false_r in Es.
    + destruct (Ascii.eqb d LF); [reflexivity|].
      rewrite IH. now destruct (find_close x) as [[g r]|].
Qed.

Lemma match_emphasis_snoc x c :
  c <> STAR ->
  match_emphasis (x ++ [c]) =
  match match_emphasis x with
  | Some (g, r) => Some (g, r ++ [c])
  | None => None
  end.
Proof.
  intros Hc. destruct x as [|a [|b x]].
  - reflexivity.
  - cbn. apply Ascii.eqb_neq in Hc. now rewrite Hc, andb_false_r.
  - cbn [app match_emphasis].
    destruct (Ascii.eqb a STAR && Ascii.eqb b STAR); [now apply find_close_snoc|reflexivity].
Qed.

(** A closing character other than a star is copied and changes nothing
    before it. *)
Lemma sub_emphasis_snoc x c :
  c <> STAR -> sub_emphasis (x ++ [c]) = sub_emphasis x ++ [c].
Proof.
  intros Hc. induction x as [x IH] using str_length_ind.
  destruct x as [|d x].
  - cbn [app]. rewrite sub_emphasis_cons, match_emphasis_plain, sub_emphasis_nil by exact Hc.
    reflexivity.
  - change ((d :: x) ++ [c]) with (d :: (x ++ [c])). rewrite !sub_emphasis_cons.
    change (d :: x ++ [c]) with ((d :: x) ++ [c]). rewrite match_emphasis_snoc by exact Hc.
    destruct (match_emphasis (d :: x)) as [[g r]|] eqn:E.
    + rewrite IH by now apply match_emphasis_shorter with (g := g).
      now rewrite app_assoc.
    + rewrite IH by (cbn; lia). reflexivity.
Qed.

Lemma chop_cr_sub_emphasis p :
  no_linebreak (chop_cr p) ->
  chop_cr (sub_emphasis p) = sub_emphasis (chop_cr p) /\
  no_linebreak (chop_cr (sub_emphasis p)).
Proof.
  remember (chop_cr p) as l eqn:El. intros Hl.
  assert (Hs : no_linebreak (sub_emphasis l)) by now apply sub_emphasis_Forall.
  destruct (chop_cr_cases p) as [E|E]; rewrite <- El in E; subst p.
  - now rewrite (chop_cr_plain Hs).
  - rewrite sub_emphasis_snoc by discriminate. now rewrite chop_cr_snoc.
Qed.

Lemma raw_table_join ps :
  Forall (fun p => no_linebreak (chop_cr p)) ps ->
  raw_table (Str.join LF ps) =
  map tokenize (filter is_data_line (map (fun p => sub_emphasis (chop_cr p)) ps)).
Proof.
  intros H. unfold raw_table, scan_lines.
  rewrite sub_emphasis_join_lf, scan_splitlines_join, scan_fold_data.
  - cbn [table_data app]. do 2 f_equal. rewrite map_map.
    apply map_ext_in. intros p Hp. rewrite Forall_forall in H.
    now apply chop_cr_sub_emphasis, H.
  - apply Forall_map. eapply Forall_impl; [|exact H].
    intros p Hp. now apply chop_cr_sub_emphasis.
Qed.

Lemma data_lines_without_separators ps :
  filter is_data_line
    (map (fun p => sub_emphasis (chop_cr p))
         (filter (fun p => negb (is_separator (chop_cr p))) ps)) =
  filter is_data_line (map (fun p => sub_emphasis (chop_cr p)) ps).
Proof.
  induction ps as [|p ps IH]; [reflexivity|]. cbn [filter map].
  destruct (is_separator (chop_cr p)) eqn:E; cbn [negb map filter]; rewrite IH;
    [|reflexivity].
  unfold is_data_line at 2. now rewrite (is_separator_sub_emphasis _ E), andb_false_r.
Qed.

(** Deleting the separator lines of a text whose line boundaries are LF
    or CR LF does not change the collected rows. *)
Lemma raw_table_without_separators ps :
  Forall (fun p => no_linebreak (chop_cr p)) ps ->
  raw_table (Str.join LF (filter (fun p => negb (is_separator (chop_cr p))) ps)) =
  raw_table (Str.join LF ps).
Proof.
  intros H. rewrite !raw_table_join; [now rewrite data_lines_without_separators|exact H|].
  apply Forall_forall. intros p Hin. apply filter_In in Hin as [Hin _].
  rewrite Forall_forall in H. now apply H.
Qed.

(** ** Lists *)

Lemma select_map {A B} (f : A -> bool) (g : A -> B) (l : list A) :
  select (map f l) (map g l) = map g (filter f l).
Proof.
  induction l as [|x l IH]; [reflexivity|]. cbn. rewrite IH. now destruct (f x).
Qed.

Lemma update_app {A} (a : list A) x b v :
  update (length a) v (a ++ x :: b) = a ++ v :: b.
Proof. induction a as [|y a IH]; [reflexivity|]. cbn. now rewrite IH. Qed.

Lemma nth_app_here {A} (a : list A) x b d : nth (length a) (a ++ x :: b) d = x.
Proof. induction a as [|y a IH]; [reflexivity|exact IH]. Qed.

Lemma firstn_here {A} (a l : list A) : firstn (length a) (a ++ l) = a.
Proof. induction a as [|y a IH]; [reflexivity|]. cbn. now rewrite IH. Qed.

Lemma skipn_here {A} (a l : list A) : skipn (length a) (a ++ l) = l.
Proof. induction a as [|y a IH]; [reflexivity|exact IH]. Qed.

(** Coercing the cell at [length a] and then everything after it is
    coercing everything from [length a] on. *)
Lemma coerce_from_step {A} (f : A -> A) (a : list A) x b :
  firstn (S (length a)) (update (length a) (f x) (a ++ x :: b))
  ++ map f (skipn (S (length a)) (update (length a) (f x) (a ++ x :: b))) =
  firstn (length a) (a ++ x :: b) ++ map f (skipn (length a) (a ++ x :: b)).
Proof.
  rewrite update_app, firstn_here, skipn_here.
  change (a ++ f x :: b) with (a ++ [f x] ++ b). rewrite app_assoc.
  replace (S (length a)) with (length (a ++ [f x])) by (rewrite length_app; cbn; lia).
  rewrite firstn_here, skipn_here. now rewrite <- app_assoc.
Qed.

Lemma update_length {A} j (v : A) l : length (update j v l) = length l.
Proof.
  revert j. induction l as [|y l IH]; intros [|j]; cbn; try reflexivity.
  now rewrite IH.
Qed.

Lemma split_at {A} (j : nat) (l : list A) :
  j < length l -> exists a x b, l = a ++ x :: b /\ length a = j.
Proof.
  revert l. induction j as [|j IH]; intros [|y l] H; cbn in H; try lia.
  - now exists [], y, l.
  - destruct (IH l) as (a & x & b & -> & Ha); [lia|].
    exists (y :: a), x, b. cbn. now rewrite Ha.
Qed.

Lemma pad_rows_map h body : pad_rows h body = map (pad_row h) body.
Proof. reflexivity. Qed.

Lemma pad_row_length h row : length (pad_row h row) = Nat.max (length row) h.
Proof. unfold pad_row. rewrite length_app, repeat_length. lia. Qed.

Lemma positions_from_absent i col labels :
  ~ In col labels -> positions_from i col labels = [].
Proof.
  revert i. induction labels as [|l labels IH]; intros i H; [reflexivity|].
  cbn. destruct (str_eq_dec l col) as [->|_]; [exfalso; apply H; now left|].
  apply IH. intros Hin. apply H. now right.
Qed.

(** In a list of distinct labels a label is found at its own position
    and nowhere else. *)
Lemma positions_from_unique i pre col post :
  NoDup (pre ++ col :: post) ->
  positions_from i col (pre ++ col :: post) = [i + length pre].
Proof.
  revert i. induction pre as [|l pre IH]; intros i H.
  - cbn. destruct (str_eq_dec col col) as [_|N]; [|contradiction].
    inversion H; subst. rewrite positions_from_absent by assumption.
    now rewrite Nat.add_0_r.
  - cbn [app positions_from length]. inversion H as [|? ? Hn Hd]; subst.
    destruct (str_eq_dec l col) as [->|_].
    + exfalso. apply Hn. apply in_or_app. right. now left.
    + rewrite IH by assumption. f_equal. lia.
Qed.

Lemma positions_from_count i col labels :
  length (positions_from i col labels) = count_occ str_eq_dec labels col.
Proof.
  revert i. induction labels as [|l labels IH]; intros i; [reflexivity|].
  cbn. destruct (str_eq_dec l col); cbn; now rewrite IH.
Qed.

(** ** The frame *)

Section FrameProperties.

Variable num : Type.
Variable parse_number : str -> option num.

#[local] Abbreviation cell := (cell num).
#[local] Abbreviation CStr := (@CStr num).
#[local] Abbreviation CMissing := (@CMissing num).
#[local] Abbreviation new_frame := (@new_frame num).
#[local] Abbreviation DataFrame := (DataFrame num).
#[local] Abbreviation coerce_cell := (coerce_cell parse_number).
#[local] Abbreviation coerce_columns := (coerce_columns parse_number).
#[local] Abbreviation build_frame := (build_frame parse_number).
#[local] Abbreviation parse_markdown_table := (parse_markdown_table parse_number).

Lemma coerce_cell_idem (c : cell) : coerce_cell (coerce_cell c) = coerce_cell c.
Proof.
  destruct c as [s| |]; cbn; [|reflexivity|reflexivity].
  now destruct (parse_number s).
Qed.

Lemma coerce_cell_numeric (c : cell) : numeric_or_missing (coerce_cell c).
Proof.
  destruct c as [s|x|]; cbn.
  - destruct (parse_number s) as [x|]; [right; now exists x|now left].
  - right. now exists x.
  - now left.
Qed.

(** The constructor accepts rows padded to the header width when none
    of them was longer than the header. *)
Lemma new_frame_padded (labels : list str) (body : list (list str)) :
  Forall (fun row => length row <= length labels) body ->
  new_frame (pad_rows (length labels) body) labels =
  Ok (MkFrame labels (seq 0 (length body))
        (map (map CStr) (pad_rows (length labels) body))).
Proof.
  intros H. destruct body as [|row body]; [reflexivity|].
  set (h := length labels). set (data := pad_rows h (row :: body)).
  assert (Hlen : Forall (fun r : list str => length r = h) data).
  { subst data. rewrite pad_rows_map. apply Forall_map.
    eapply Forall_impl; [|exact H]. intros r Hr. cbn beta in Hr.
    rewrite pad_row_length. lia. }
  assert (Hmax : list_max (map (fun r : list str => length r) data) = h).
  { subst data. rewrite pad_rows_map in *. cbn [map list_max] in *.
    inversion Hlen as [|? ? H1 H2]; subst. rewrite H1.
    clear - H2. induction H2 as [|r rs Hr _ IH]; cbn; [lia|].
    rewrite Hr. cbn in IH. lia. }
  unfold new_frame. fold h.
  change (pad_rows h (row :: body)) with data.
  destruct data as [|d data'] eqn:Ed; [discriminate|].
  rewrite Hmax, Nat.eqb_refl. f_equal. f_equal.
  - subst data. rewrite <- Ed. now rewrite pad_rows_map, !length_map.
  - apply map_ext_in. intros r Hr. rewrite Forall_forall in Hlen.
    rewrite (Hlen r Hr), Nat.sub_diag. apply app_nil_r.
Qed.

(** The constructor refuses the rows as soon as one of them is longer
    than the header. *)
Lemma new_frame_ok_inv (labels : list str) (body : list (list str)) df :
  new_frame (pad_rows (length labels) body) labels = Ok df ->
  Forall (fun row => length row <= length labels) body.
Proof.
  destruct body as [|row body]; [constructor|]. unfold new_frame.
  set (data := pad_rows (length labels) (row :: body)).
  destruct data as [|d data'] eqn:Ed; [discriminate|].
  destruct (Nat.eqb_spec (list_max (map (fun r : list str => length r) (d :: data')))
              (length labels)) as [E|_]; [|discriminate].
  intros _. rewrite <- Ed in E. subst data.
  assert (Hle : list_max (map (fun r : list str => length r)
                  (pad_rows (length labels) (row :: body))) <= length labels) by lia.
  apply list_max_le in Hle. rewrite pad_rows_map, map_map in Hle.
  apply Forall_map in Hle. eapply Forall_impl; [|exact Hle].
  intros r Hr. cbn beta in Hr. rewrite pad_row_length in Hr. lia.
Qed.

Lemma set_column_map j (f : cell -> cell) (rs : list (list cell)) :
  set_column j (map (fun row => f (nth j row CMissing)) rs) rs =
  map (fun row => update j (f (nth j row CMissing)) row) rs.
Proof. induction rs as [|r rs IH]; [reflexivity|]. cbn. now rewrite IH. Qed.

(** The loop over distinct labels, for rows of the frame's width: the
    columns it is run on are coerced, the ones before them are not. *)
Lemma coerce_columns_distinct (cols pre : list str) idx (rs : list (list cell)) :
  NoDup (pre ++ cols) ->
  Forall (fun row => length row = length (pre ++ cols)) rs ->
  coerce_columns cols (MkFrame (pre ++ cols) idx rs) =
  Ok (MkFrame (pre ++ cols) idx
        (map (fun row => firstn (length pre) row
                         ++ map coerce_cell (skipn (length pre) row)) rs)).
Proof.
  revert pre rs. induction cols as [|c cols IH]; intros pre rs Hnd Hlen.
  - cbn [coerce_columns]. f_equal. f_equal. symmetry.
    rewrite <- (map_id rs) at 2. apply map_ext_in. intros r Hr.
    rewrite Forall_forall in Hlen. specialize (Hlen r Hr).
    rewrite app_nil_r in Hlen. rewrite <- Hlen, firstn_all, skipn_all.
    apply app_nil_r.
  - cbn [coerce_columns]. unfold getitem, setitem. cbn [columns rows index].
    rewrite (positions_from_unique 0 pre c cols Hnd). cbn [Nat.add].
    cbn [to_numeric bind fold_left]. unfold column_at. cbn [rows].
    rewrite map_map, (set_column_map (length pre) coerce_cell).
    specialize (IH (pre ++ [c])). rewrite <- app_assoc in IH. cbn [app] in IH.
    rewrite IH; [|exact Hnd|].
    + f_equal. f_equal. rewrite map_map. apply map_ext_in. intros r Hr.
      rewrite Forall_forall in Hlen. specialize (Hlen r Hr).
      destruct (@split_at _ (length pre) r) as (a & x & b & -> & Ha).
      { rewrite Hlen, length_app. cbn. lia. }
      rewrite length_app, <- Ha, nth_app_here. cbn [length]. rewrite Nat.add_1_r.
      apply coerce_from_step.
    + apply Forall_map. eapply Forall_impl; [|exact Hlen].
      intros r Hr. cbn beta in *. now rewrite update_length.
Qed.

Lemma mask_keep_row labels idx (data : list (list str)) :
  map negb (str_contains SENTINEL
              (column_at 0 (MkFrame labels idx (map (map CStr) data)))) =
  map keep_row data.
Proof.
  unfold str_contains, column_at. cbn [rows]. rewrite !map_map.
  apply map_ext. now intros [|c r].
Qed.

Lemma coerce_row_firstn (row : list cell) :
  firstn 1 row ++ map coerce_cell (skipn 1 row) = coerce_row parse_number row.
Proof. now destruct row. Qed.

(** A text whose header has at least one cell and distinct labels, and
    whose body rows are no longer than the header, is parsed without an
    exception, into these rows. *)
Lemma build_frame_wellformed (first : list str) (body : list (list str)) :
  first <> [] ->
  NoDup (map Str.strip first) ->
  Forall (fun row => length row <= length first) body ->
  build_frame (first :: body) =
  Ok (MkFrame (map Str.strip first)
        (seq 0 (length (final_rows parse_number first body)))
        (final_rows parse_number first body)).
Proof.
  intros Hne Hnd Hlen. unfold build_frame. cbv zeta.
  rewrite new_frame_padded by now rewrite length_map.
  cbn [bind]. unfold iloc_column. cbn [columns].
  destruct (map Str.strip first) as [|c0 cols] eqn:Eh.
  { now destruct first. }
  cbn [length Nat.ltb Nat.leb bind].
  rewrite mask_keep_row. unfold reset_index, loc_mask. cbn [columns rows index tl].
  rewrite select_map.
  assert (El : S (length cols) = length first).
  { change (S (length cols)) with (length (c0 :: cols)).
    now rewrite <- Eh, length_map. }
  rewrite El. etransitivity.
  { apply (coerce_columns_distinct cols [c0]); [exact Hnd|].
    apply Forall_map. apply Forall_forall. intros r Hr.
    apply filter_In in Hr as [Hr _]. rewrite pad_rows_map in Hr.
    apply in_map_iff in Hr as [r0 [<- Hr0]].
    rewrite length_map, pad_row_length. rewrite Forall_forall in Hlen.
    specialize (Hlen r0 Hr0). cbn [length app]. lia. }
  unfold final_rows. rewrite !length_map. f_equal. f_equal.
  rewrite map_map. apply map_ext. intros r. apply coerce_row_firstn.
Qed.

Lemma coerce_columns_ok_inv (cols : list str) (df df' : DataFrame) :
  coerce_columns cols df = Ok df' ->
  Forall (fun c => count_occ str_eq_dec (columns df) c = 1) cols.
Proof.
  revert df. induction cols as [|c cols IH]; intros df H; [constructor|].
  cbn [coerce_columns] in H. unfold getitem in H.
  pose proof (positions_from_count 0 c (columns df)) as Hc.
  destruct (positions_from 0 c (columns df)) as [|j [|j' js]] eqn:Ep;
    try discriminate H.
  cbn [to_numeric bind] in H. constructor; [now rewrite <- Hc|].
  exact (IH _ H).
Qed.

Lemma nodup_from_tail (c0 : str) (cols : list str) :
  Forall (fun c => count_occ str_eq_dec (c0 :: cols) c = 1) cols ->
  NoDup (c0 :: cols).
Proof.
  intros H. apply (NoDup_count_occ str_eq_dec). intros x.
  destruct (in_dec str_eq_dec x cols) as [Hin|Hout].
  - rewrite Forall_forall in H. now rewrite (H x Hin).
  - apply (count_occ_not_In str_eq_dec) in Hout. cbn.
    destruct (str_eq_dec c0 x); lia.
Qed.

Lemma build_frame_ok_inv (first : list str) (body : list (list str)) df :
  build_frame (first :: body) = Ok df ->
  first <> [] /\ NoDup (map Str.strip first) /\
  Forall (fun row => length row <= length first) body.
Proof.
  unfold build_frame. cbv zeta. intros H.
  destruct (new_frame (pad_rows (length (map Str.strip first)) body)
              (map Str.strip first)) as [df0|e] eqn:En; [|discriminate H].
  pose proof (new_frame_ok_inv _ _ En) as Hlen. rewrite length_map in Hlen.
  rewrite new_frame_padded in En by now rewrite length_map.
  injection En as <-. cbn [bind] in H. unfold iloc_column in H. cbn [columns] in H.
  destruct (map Str.strip first) as [|c0 cols] eqn:Eh; [discriminate H|].
  cbn [length Nat.ltb Nat.leb bind] in H.
  unfold reset_index, loc_mask in H. cbn [columns rows index tl] in H.
  apply coerce_columns_ok_inv in H. cbn [columns] in H.
  split; [intros ->; discriminate Eh|]. split; [now apply nodup_from_tail|exact Hlen].
Qed.

(** What a successful parse returns. *)
Lemma parse_ok_cases (text : str) (df : DataFrame) :
  parse_markdown_table text = Ok df ->
  (raw_table text = [] /\ df = empty_frame) \/
  (exists first body,
     raw_table text = first :: body /\ first <> [] /\ NoDup first /\
     Forall (fun row => length row <= length first) body /\
     df = MkFrame first (seq 0 (length (final_rows parse_number first body)))
            (final_rows parse_number first body)).
Proof.
  unfold parse_markdown_table. intros H.
  destruct (raw_table text) as [|first body] eqn:Er.
  - left. cbn in H. injection H as <-. now split.
  - right. exists first, body.
    destruct (build_frame_ok_inv _ _ H) as (Hne & Hnd & Hlen).
    rewrite (build_frame_wellformed Hne Hnd Hlen) in H. injection H as <-.
    assert (Es : map Str.strip first = first).
    { rewrite raw_table_data in Er.
      destruct (filter is_data_line (Str.splitlines (sub_emphasis text)))
        as [|l ls]; [discriminate Er|].
      injection Er as <- _. apply map_strip_tokenize. }
    rewrite Es in *. repeat split; assumption.
Qed.

Lemma single_header_line (text : str) (first : list str) :
  raw_table text = [first] -> first <> [] -> NoDup first ->
  parse_markdown_table text = Ok (MkFrame first [] []).
Proof.
  intros Er Hne Hnd. unfold parse_markdown_table. rewrite Er.
  assert (Es : map Str.strip first = first).
  { rewrite raw_table_data in Er.
    destruct (filter is_data_line (Str.splitlines (sub_emphasis text)))
      as [|l ls]; [discriminate Er|].
    injection Er as <- _. apply map_strip_tokenize. }
  rewrite build_frame_wellformed; [now rewrite Es|exact Hne|now rewrite Es|constructor].
Qed.

(** Every row of the result comes from a padded body row that passed the
    sentinel filter: its label is that row's first cell, its other cells
    are that row's cells after coercion. *)
Lemma final_row_shape (first : list str) (body : list (list str)) row :
  first <> [] ->
  In row (final_rows parse_number first body) ->
  exists label rest,
    row = CStr label :: map (fun s => coerce_cell (CStr s)) rest /\
    Str.contains_nocase SENTINEL label = false /\
    In (label :: rest) (pad_rows (length first) body) /\
    length first <= length row.
Proof.
  intros Hne Hin. unfold final_rows in Hin.
  apply in_map_iff in Hin as [padded [<- Hin]].
  apply filter_In in Hin as [Hin Hk].
  assert (Hl : length first <= length padded).
  { rewrite pad_rows_map in Hin. apply in_map_iff in Hin as [r0 [<- _]].
    rewrite pad_row_length. lia. }
  destruct padded as [|label rest].
  { destruct first; [contradiction|cbn in Hl; lia]. }
  exists label, rest. cbn [map coerce_row]. rewrite map_map.
  split; [reflexivity|]. split.
  - unfold keep_row in Hk. cbn [hd] in Hk. now apply negb_true_iff in Hk.
  - split; [exact Hin|]. cbn [length] in *. rewrite !length_map. lia.
Qed.

Lemma final_rows_width (first : list str) (body : list (list str)) :
  Forall (fun row => length row <= length first) body ->
  Forall (fun row : list cell => length row = length first)
         (final_rows parse_number first body).
Proof.
  intros Hlen. apply Forall_forall. intros row Hin.
  unfold final_rows in Hin.
  apply in_map_iff in Hin as [padded [<- Hin]].
  apply filter_In in Hin as [Hin _]. rewrite pad_rows_map in Hin.
  apply in_map_iff in Hin as [r0 [<- Hr0]]. rewrite Forall_forall in Hlen.
  specialize (Hlen r0 Hr0).
  assert (E : length (pad_row (length first) r0) = length first)
    by (rewrite pad_row_length; lia).
  destruct (pad_row (length first) r0); cbn in *; [exact E|].
  now rewrite !length_map.
Qed.

(** C1 (the code departs from the claim): a body row longer than the
    header makes the DataFrame constructor raise, and a header line
    without any cell makes the positional access to the first column
    raise; neither input degrades to an empty or partial table. *)
Theorem parse_raises_on_malformed_table :
  raw_table (Str.join LF [lit "| a |"; lit "| 1 | 2 |"]) = [[lit "a"]; [lit "1"; lit "2"]] /\
  parse_markdown_table (Str.join LF [lit "| a |"; lit "| 1 | 2 |"]) = Raise ValueError /\
  raw_table (lit "||") = [[]] /\
  parse_markdown_table (lit "||") = Raise IndexError.
Proof. repeat split; reflexivity. Qed.

(** C2: in the returned table every row starts with a string label, which
    is the first cell of the body row it comes from, never coerced; every
    other cell is a number or the missing marker, never a string. *)
Theorem numeric_columns_hold_no_string (text : str) (df : DataFrame) :
  parse_markdown_table text = Ok df ->
  Forall (fun row => exists label rest,
            row = CStr label :: rest /\
            Forall (@numeric_or_missing num) rest /\
            length row = length (columns df)) (rows df) /\
  (forall first body,
     raw_table text = first :: body ->
     column_at 0 df =
     map (fun row => CStr (hd [] row))
         (filter keep_row (pad_rows (length first) body))).
Proof.
  intros H. apply parse_ok_cases in H
    as [[Er ->]|(first & body & Er & Hne & Hnd & Hlen & ->)].
  - split; [constructor|]. intros first body E. rewrite Er in E. discriminate E.
  - cbn [rows columns]. split.
    + pose proof (@final_rows_width first body Hlen) as Hw.
      apply Forall_forall. intros row Hin.
      rewrite Forall_forall in Hw. specialize (Hw row Hin).
      destruct (@final_row_shape first body _ Hne Hin) as (label & rest & -> & _).
      exists label, (map (fun s => coerce_cell (CStr s)) rest).
      split; [reflexivity|]. split; [|exact Hw].
      apply Forall_map. apply Forall_forall. intros s _. apply coerce_cell_numeric.
    + intros first' body' E. rewrite Er in E. injection E as <- <-.
      unfold column_at, final_rows. cbn [rows]. rewrite map_map.
      apply map_ext_in. intros padded Hin. apply filter_In in Hin as [Hin _].
      rewrite pad_rows_map in Hin. apply in_map_iff in Hin as [r0 [<- _]].
      assert (Hl : length first <= length (pad_row (length first) r0))
        by (rewrite pad_row_length; lia).
      destruct (pad_row (length first) r0); [|reflexivity].
      destruct first; [contradiction|cbn in Hl; lia].
Qed.

(** C3: the rows of the result are the padded body rows whose first cell
    does not contain "EXISTING LEVELS" in any letter case, all of them and
    in their order, where a first cell contains it exactly when some
    stretch of the cell reads E-X-I-S-T-I-N-G, space, L-E-V-E-L-S with each
    letter in either case; no row of the result has such a label; and the
    index counts the remaining rows from 0 without a gap. *)
Theorem sentinel_rows_removed (text : str) (df : DataFrame)
        (first : list str) (body : list (list str)) :
  parse_markdown_table text = Ok df ->
  raw_table text = first :: body ->
  rows df = map (fun row => coerce_row parse_number (map CStr row))
                (filter (fun row => negb (Str.contains_nocase SENTINEL (hd [] row)))
                        (pad_rows (length first) body)) /\
  (forall label,
     Str.contains_nocase SENTINEL label = true <-> mentions SENTINEL label) /\
  Forall (fun row => exists label rest,
            row = CStr label :: rest /\
            Str.contains_nocase SENTINEL label = false /\
            ~ mentions SENTINEL label) (rows df) /\
  (forall row, In row (pad_rows (length first) body) ->
     ~ mentions SENTINEL (hd [] row) ->
     In (coerce_row parse_number (map CStr row)) (rows df)) /\
  index df = seq 0 (length (rows df)).
Proof.
  intros H Er. apply parse_ok_cases in H
    as [[Er' _]|(first' & body' & Er' & Hne & Hnd & Hlen & ->)];
    rewrite Er in Er'; [discriminate Er'|]. injection Er' as <- <-.
  cbn [rows index]. split; [reflexivity|].
  split; [intros label; apply contains_nocase_mentions|].
  split; [|split; [|reflexivity]].
  - apply Forall_forall. intros row Hin.
    destruct (@final_row_shape first body _ Hne Hin) as (label & rest & -> & Hs & _).
    exists label, (map (fun s => coerce_cell (CStr s)) rest).
    split; [reflexivity|]. split; [exact Hs|].
    intros Hm. apply contains_nocase_mentions in Hm. congruence.
  - intros row Hin Hm. unfold final_rows. apply in_map_iff. exists row.
    split; [reflexivity|]. apply filter_In.
    split; [exact Hin|]. unfold keep_row.
    destruct (Str.contains_nocase SENTINEL (hd [] row)) eqn:E; [|reflexivity].
    apply contains_nocase_mentions in E. contradiction.
Qed.

Lemma coerce_row_idem (row : list cell) :
  coerce_row parse_number (coerce_row parse_number row) = coerce_row parse_number row.
Proof.
  destruct row as [|label rest]; [reflexivity|]. cbn. f_equal.
  rewrite map_map. apply map_ext. apply coerce_cell_idem.
Qed.

Lemma nth_coerced_fixed j (rest : list cell) :
  coerce_cell (nth j (map coerce_cell rest) CMissing) =
  nth j (map coerce_cell rest) CMissing.
Proof.
  revert j. induction rest as [|c rest IH]; intros [|j]; cbn [map nth];
    try reflexivity; [apply coerce_cell_idem|apply IH].
Qed.

(** C4: a body row of [k] cells under a header of [h > k] cells is built
    as a row of exactly [h] cells, its own [k] cells in order followed by
    [h - k] empty strings; after coercion, when the row is kept and the
    empty string is no number, its cells from [k] on, the label apart, are
    the missing marker. *)
Theorem short_rows_padded (text : str) (first : list str) (body : list (list str))
        (i : nat) (row : list str) (df : DataFrame) :
  raw_table text = first :: body ->
  nth_error body i = Some row ->
  length row < length first ->
  let h := length first in
  let k := length row in
  let padded := row ++ repeat [] (h - k) in
  nth_error (pad_rows h body) i = Some padded /\
  length padded = h /\
  firstn k padded = row /\
  skipn k padded = repeat [] (h - k) /\
  (parse_number [] = None ->
   parse_markdown_table text = Ok df ->
   keep_row padded = true ->
   In (coerce_row parse_number (map CStr padded)) (rows df) /\
   forall j, 1 <= j -> k <= j -> j < h ->
             nth_error (coerce_row parse_number (map CStr padded)) j = Some CMissing).
Proof.
  intros Er Hi Hk h k padded.
  assert (Hp : nth_error (pad_rows h body) i = Some padded).
  { rewrite pad_rows_map. change padded with (pad_row h row).
    now apply map_nth_error. }
  split; [exact Hp|]. split.
  { unfold padded. rewrite length_app, repeat_length. lia. }
  split; [apply firstn_here|]. split; [apply skipn_here|].
  intros Hempty Hok Hkeep. split.
  - apply parse_ok_cases in Hok
      as [[Er' _]|(first' & body' & Er' & _ & _ & _ & ->)];
      rewrite Er in Er'; [discriminate Er'|]. injection Er' as <- <-.
    cbn [rows]. unfold final_rows.
    apply (in_map (fun r => coerce_row parse_number (map CStr r))).
    apply filter_In. split; [|exact Hkeep]. now apply nth_error_In with (n := i).
  - intros j Hj1 Hjk Hjh. destruct j as [|j]; [lia|].
    assert (Hn : nth_error padded (S j) = Some []).
    { unfold padded. rewrite nth_error_app2 by exact Hjk.
      apply nth_error_repeat. lia. }
    destruct padded as [|label rest]; [discriminate Hn|].
    cbn [map coerce_row nth_error] in *.
    rewrite map_map, nth_error_map, Hn. cbn. now rewrite Hempty.
Qed.

Lemma scan_without_separators lines :
  table_data (scan_lines (filter (fun l => negb (is_separator l)) lines)) =
  table_data (scan_lines lines).
Proof.
  rewrite !scan_lines_data. f_equal.
  induction lines as [|l lines IH]; [reflexivity|]. cbn [filter].
  destruct (is_separator l) eqn:E; cbn [negb filter]; rewrite IH.
  - unfold is_data_line. now rewrite E, andb_false_r.
  - reflexivity.
Qed.

(** A check of [lf_terminated] that can be run. *)
Lemma lf_terminated_check text :
  forallb (fun p => forallb (fun c => negb (Str.is_linebreak c)) (chop_cr p))
          (Str.split LF text) = true ->
  lf_terminated text.
Proof.
  intros H. apply Forall_forall. intros p Hp. apply Forall_forall. intros c Hc.
  rewrite forallb_forall in H. specialize (H p Hp).
  rewrite forallb_forall in H. specialize (H c Hc). now apply negb_true_iff in H.
Qed.

(** C6, as amended: for every input, the lines of the stripped text that
    contain both a pipe and three dashes yield no row and no header
    wherever they stand (the collected rows are those of the remaining
    lines), and the flag they set has no effect; and for every input
    whose line boundaries are line feeds, alone or after a carriage
    return, the output equals the output for the same input with every
    line containing both a pipe and three dashes deleted. *)
Theorem separator_lines_are_inert (text any : str) (flag : bool) :
  lf_terminated text ->
  parse_markdown_table (delete_separator_lines text) = parse_markdown_table text /\
  raw_table any =
    table_data (scan_lines (filter (fun l => negb (is_separator l))
                                   (Str.splitlines (sub_emphasis any)))) /\
  table_data (fold_left scan_step (Str.splitlines (sub_emphasis any))
                        (ScanState flag [])) = raw_table any.
Proof.
  intros H. split; [|split].
  - unfold parse_markdown_table, delete_separator_lines.
    rewrite (raw_table_without_separators H). now rewrite join_split.
  - unfold raw_table. now rewrite scan_without_separators.
  - apply scan_flag_inert.
Qed.

(** C8 (the code departs from the claim): an input whose only data line
    has no cell, or has two cells of the same text, is not turned into a
    table with these headers and no rows; the parser raises. *)
Theorem single_data_line_can_raise :
  raw_table (lit "| |") = [[]] /\
  parse_markdown_table (lit "| |") = Raise IndexError /\
  raw_table (lit "| Level | Level |") = [[lit "Level"; lit "Level"]] /\
  parse_markdown_table (lit "| Level | Level |") = Raise TypeError.
Proof. repeat split; reflexivity. Qed.

(** C9: coercing again what has been coerced changes nothing: cell by
    cell, column by column of a returned table, and for the whole loop
    run a second time on a returned table. *)
Theorem coercion_idempotent (text : str) (df : DataFrame) (c : cell) :
  parse_markdown_table text = Ok df ->
  coerce_cell (coerce_cell c) = coerce_cell c /\
  (forall col, In col (tl (columns df)) ->
               exists values, getitem df col = Series values /\
                              to_numeric parse_number (Series values) = Ok values) /\
  coerce_columns (tl (columns df)) df = Ok df.
Proof.
  intros H. split; [apply coerce_cell_idem|].
  apply parse_ok_cases in H
    as [[_ ->]|(first & body & _ & Hne & Hnd & Hlen & ->)].
  { split; [intros col []|reflexivity]. }
  destruct first as [|c0 cols]; [contradiction|]. cbn [columns tl]. split.
  - intros col Hin. apply in_split in Hin as (l1 & l2 & ->).
    unfold getitem. cbn [columns].
    change (c0 :: l1 ++ col :: l2) with ((c0 :: l1) ++ col :: l2) in *.
    rewrite (positions_from_unique 0 (c0 :: l1) col l2 Hnd). cbn [Nat.add length].
    eexists. split; [reflexivity|]. cbn [to_numeric]. f_equal.
    unfold column_at. cbn [rows]. rewrite map_map. apply map_ext_in.
    intros row Hr. unfold final_rows in Hr.
    apply in_map_iff in Hr as [padded [<- _]].
    destruct (map CStr padded) as [|label rest]; [reflexivity|].
    cbn [coerce_row nth]. apply nth_coerced_fixed.
  - etransitivity.
    { apply (coerce_columns_distinct cols [c0]); [exact Hnd|].
      exact (@final_rows_width (c0 :: cols) body Hlen). }
    f_equal. f_equal.
    rewrite <- (map_id (final_rows parse_number (c0 :: cols) body)) at 2.
    apply map_ext_in. intros row Hr. rewrite coerce_row_firstn.
    unfold final_rows in Hr. apply in_map_iff in Hr as [padded [<- _]].
    apply coerce_row_idem.
Qed.

End FrameProperties.

(** ** The model at work *)

Example sample_raw_table : raw_table sample_text = sample_first :: sample_body.
Proof. reflexivity. Qed.

Example sample_parse : parse_markdown_table parse_digits sample_text = Ok sample_frame.
Proof. reflexivity. Qed.

Lemma numeric_columns_hold_no_string_witness :
  parse_markdown_table parse_digits sample_text = Ok sample_frame /\
  Forall (fun row => exists label rest,
            row = CStr label :: rest /\
            Forall (@numeric_or_missing nat) rest /\
            length row = 2) (rows sample_frame) /\
  column_at 0 sample_frame = [CStr (lit "0"); CStr (lit "10"); CStr (lit "20")].
Proof.
  assert (H : parse_markdown_table parse_digits sample_text = Ok sample_frame)
    by reflexivity.
  destruct (@numeric_columns_hold_no_string nat parse_digits sample_text sample_frame H)
    as [Hrows Hlabels].
  split; [exact H|]. split; [exact Hrows|].
  exact (Hlabels sample_first sample_body eq_refl).
Defined.

Lemma sentinel_rows_removed_witness :
  let first := [lit "Item"; lit "Level"] in
  let body := [[lit "EXISTING LEVELS"; lit "1"];
               [lit "Proposed Levels (m)"; lit "2"];
               [lit "pre-existing levels (m)"; lit "3"];
               [lit "Existing  Levels"; lit "4"];
               [lit "ExIsTiNg LeVeLs"; lit "5"];
               [lit "EXISTING LEVEL"; lit "6"]] in
  parse_markdown_table parse_digits levels_text = Ok levels_frame /\
  raw_table levels_text = first :: body /\
  rows levels_frame =
    [[CStr (lit "Proposed Levels (m)"); CNum 2];
     [CStr (lit "Existing  Levels"); CNum 4];
     [CStr (lit "EXISTING LEVEL"); CNum 6]] /\
  mentions SENTINEL (lit "pre-existing levels (m)") /\
  mentions SENTINEL (lit "ExIsTiNg LeVeLs") /\
  ~ mentions SENTINEL (lit "Proposed Levels (m)") /\
  ~ mentions SENTINEL (lit "Existing  Levels") /\
  ~ mentions SENTINEL (lit "EXISTING LEVEL") /\
  index levels_frame = [0; 1; 2].
Proof.
  intros first body.
  assert (H : parse_markdown_table parse_digits levels_text = Ok levels_frame)
    by reflexivity.
  assert (Er : raw_table levels_text = first :: body) by reflexivity.
  destruct (@sentinel_rows_removed nat parse_digits levels_text levels_frame
              first body H Er) as (Hrows & Hm & _ & _ & Hidx).
  split; [exact H|]. split; [exact Er|]. split; [reflexivity|].
  split; [apply Hm; reflexivity|]. split; [apply Hm; reflexivity|].
  split; [intros E; apply Hm in E; discriminate E|].
  split; [intros E; apply Hm in E; discriminate E|].
  split; [intros E; apply Hm in E; discriminate E|exact Hidx].
Defined.

Lemma short_rows_padded_witness :
  raw_table sample_text = sample_first :: sample_body /\
  nth_error sample_body 3 = Some [lit "20"] /\
  nth_error (pad_rows 2 sample_body) 3 = Some [lit "20"; []] /\
  parse_digits [] = None /\
  parse_markdown_table parse_digits sample_text = Ok sample_frame /\
  In [CStr (lit "20"); CMissing] (rows sample_frame) /\
  nth_error (coerce_row parse_digits (map CStr [lit "20"; []])) 1 = Some CMissing.
Proof.
  assert (Er : raw_table sample_text = sample_first :: sample_body) by reflexivity.
  assert (Hi : nth_error sample_body 3 = Some [lit "20"]) by reflexivity.
  assert (Hk : length [lit "20"] < length sample_first) by (cbn; lia).
  assert (He : parse_digits [] = None) by reflexivity.
  assert (H : parse_markdown_table parse_digits sample_text = Ok sample_frame)
    by reflexivity.
  destruct (@short_rows_padded nat parse_digits sample_text sample_first sample_body
              3 [lit "20"] sample_frame Er Hi Hk) as (Hp & _ & _ & _ & Hafter).
  destruct (Hafter He H eq_refl) as [Hin Hmissing].
  split; [exact Er|]. split; [exact Hi|]. split; [exact Hp|]. split; [exact He|].
  split; [exact H|]. split; [exact Hin|].
  apply (Hmissing 1); cbn; lia.
Defined.

Lemma separator_lines_are_inert_witness :
  let text := lit "| a | b |" ++ CR :: LF :: lit "|---|---|" ++ CR :: LF ::
              lit "| 1 | x |" ++ LF :: lit "| - | --- |" in
  lf_terminated text /\
  delete_separator_lines text = lit "| a | b |" ++ CR :: LF :: lit "| 1 | x |" /\
  parse_markdown_table parse_digits (delete_separator_lines text) =
  parse_markdown_table parse_digits text /\
  raw_table sample_text = sample_first :: sample_body.
Proof.
  intros text.
  assert (H : lf_terminated text).
  { apply lf_terminated_check. vm_compute. reflexivity. }
  destruct (@separator_lines_are_inert nat parse_digits text sample_text false H)
    as (Hparse & Hraw & _).
  split; [exact H|]. split; [reflexivity|]. split; [exact Hparse|].
  rewrite Hraw. reflexivity.
Defined.

Lemma coercion_idempotent_witness :
  parse_markdown_table parse_digits sample_text = Ok sample_frame /\
  coerce_cell parse_digits (coerce_cell parse_digits (CStr (lit "12"))) = CNum 12 /\
  coerce_columns parse_digits [lit "Depth"] sample_frame = Ok sample_frame.
Proof.
  assert (H : parse_markdown_table parse_digits sample_text = Ok sample_frame)
    by reflexivity.
  destruct (@coercion_idempotent nat parse_digits sample_text sample_frame
              (CStr (lit "12")) H) as (Hcell & _ & Hloop).
  split; [exact H|]. split; [rewrite Hcell; reflexivity|exact Hloop].
Defined.

(** C6 as stated fails where the lines are separated by carriage returns:
    a wrapper may then open on one line and close on a separator line, and
    deleting the separator line changes which markers pair up. *)
Lemma separator_deletion_changes_output :
  let l1 := lit "| **a |" in
  let l2 := lit "|---** x|" in
  let l3 := lit "| **b |" in
  Str.splitlines (Str.join CR [l1; l2; l3]) = [l1; l2; l3] /\
  filter (fun l => negb (is_separator l)) [l1; l2; l3] = [l1; l3] /\
  parse_markdown_table parse_digits (Str.join CR [l1; l2; l3]) =
    Ok (MkFrame [lit "a"] [0] [[CStr (lit "**b")]]) /\
  parse_markdown_table parse_digits (Str.join CR [l1; l3]) =
    Ok (MkFrame [lit "a"] [0] [[CStr (lit "b")]]) /\
  parse_markdown_table parse_digits (Str.join CR [l1; l2; l3]) <>
  parse_markdown_table parse_digits (Str.join CR [l1; l3]).
Proof.
  cbv zeta. repeat split; try reflexivity.
  intro E. vm_compute in E. discriminate E.
Qed.

(** * Further properties of the parser and of the upload loop *)

(** ** The substitution removes stars and nothing else *)

Lemma filter_not_star_mark (g r : str) :
  filter (fun c => negb (Ascii.eqb c STAR)) (STAR :: STAR :: g ++ STAR :: STAR :: r) =
  filter (fun c => negb (Ascii.eqb c STAR)) g ++
  filter (fun c => negb (Ascii.eqb c STAR)) r.
Proof.
  cbn [filter]. rewrite Ascii.eqb_refl. cbn [negb].
  rewrite filter_app. cbn [filter]. rewrite Ascii.eqb_refl. reflexivity.
Qed.

(** X1: whatever the text, the characters other than the star come out
    of the emphasis stripping unchanged and in their order, and the
    stripped text is never longer than the text. *)
Theorem sub_emphasis_removes_only_stars (s : str) :
  filter (fun c => negb (Ascii.eqb c STAR)) (sub_emphasis s) =
  filter (fun c => negb (Ascii.eqb c STAR)) s /\
  length (sub_emphasis s) <= length s.
Proof.
  induction s as [s IH] using str_length_ind.
  destruct s as [|c s]; [now rewrite sub_emphasis_nil|].
  rewrite sub_emphasis_cons.
  destruct (match_emphasis (c :: s)) as [[g r]|] eqn:E.
  - pose proof (match_emphasis_shorter _ E) as Hlt.
    destruct (IH r Hlt) as [IH1 IH2].
    apply match_emphasis_shape in E. rewrite E, filter_not_star_mark.
    rewrite filter_app, IH1. split; [reflexivity|].
    cbn [length]. rewrite !length_app. cbn [length]. lia.
  - destruct (IH s) as [IH1 IH2]; [cbn; lia|].
    cbn [filter length]. rewrite IH1. split; [reflexivity|lia].
Qed.

(** X2: a text in which no two stars stand next to each other is left as
    it is. *)
Theorem sub_emphasis_without_marker (s : str) :
  Str.contains MARK s = false -> sub_emphasis s = s.
Proof.
  induction s as [|c s IH]; intros H; [apply sub_emphasis_nil|].
  cbn [Str.contains] in H. apply orb_false_elim in H as [Hs Hc].
  rewrite sub_emphasis_cons.
  assert (E : match_emphasis (c :: s) = None).
  { destruct s as [|d s]; [reflexivity|]. cbn [match_emphasis].
    cbn [MARK Str.starts_with] in Hs. rewrite andb_true_r in Hs.
    rewrite (Ascii.eqb_sym c), (Ascii.eqb_sym d). now rewrite Hs. }
  now rewrite E, IH.
Qed.

Lemma sub_emphasis_without_marker_witness :
  Str.contains MARK (lit "| 2*3 | a * b* |") = false /\
  sub_emphasis (lit "| 2*3 | a * b* |") = lit "| 2*3 | a * b* |".
Proof.
  assert (H : Str.contains MARK (lit "| 2*3 | a * b* |") = false) by reflexivity.
  split; [exact H|]. exact (sub_emphasis_without_marker _ H).
Defined.

(** ** Tokenizing and writing a row *)

Lemma split_app d a b :
  Str.split d (a ++ d :: b) = Str.split d a ++ Str.split d b.
Proof.
  induction a as [|c a IH]; cbn [app Str.split].
  - now rewrite Ascii.eqb_refl.
  - rewrite IH. destruct (Ascii.eqb c d); [reflexivity|].
    destruct (Str.split d a) as [|p ps] eqn:E; [now apply split_not_nil in E|].
    reflexivity.
Qed.

Lemma split_no_sep d p : Forall (fun c => c <> d) p -> Str.split d p = [p].
Proof.
  induction 1 as [|c p Hc _ IH]; [reflexivity|]. cbn [Str.split].
  apply Ascii.eqb_neq in Hc. now rewrite Hc, IH.
Qed.

Lemma tokenize_app_pipe x y :
  tokenize (x ++ PIPE :: y) = tokenize x ++ tokenize y.
Proof. unfold tokenize. now rewrite split_app, flat_map_app. Qed.

(** X3: the cells of a line are the cells before a pipe followed by the
    cells after it; a pipe at the start or at the end of a line adds no
    cell. *)
Theorem tokenize_at_pipe (a b : str) :
  tokenize (a ++ PIPE :: b) = tokenize a ++ tokenize b /\
  tokenize (PIPE :: a) = tokenize a /\
  tokenize (a ++ [PIPE]) = tokenize a.
Proof.
  split; [apply tokenize_app_pipe|]. split.
  - apply (tokenize_app_pipe [] a).
  - rewrite (tokenize_app_pipe a []). apply app_nil_r.
Qed.

Lemma lstrip_app_nonblank c y :
  Str.lstrip c <> [] -> Str.lstrip (c ++ y) = Str.lstrip c ++ y.
Proof.
  induction c as [|a c IH]; intros H; [contradiction|]. cbn [app Str.lstrip] in *.
  destruct (Str.is_space a); [now apply IH|reflexivity].
Qed.

Lemma rstrip_snoc_space x : Str.rstrip (x ++ [SPACE]) = Str.rstrip x.
Proof.
  induction x as [|a x IH]; [reflexivity|]. cbn [app Str.rstrip]. now rewrite IH.
Qed.

Lemma strip_padded c :
  c <> [] -> Str.strip c = c -> Str.strip (SPACE :: c ++ [SPACE]) = c.
Proof.
  intros Hne Hc. unfold Str.strip in *.
  change (Str.lstrip (SPACE :: c ++ [SPACE])) with (Str.lstrip (c ++ [SPACE])).
  rewrite lstrip_app_nonblank, rstrip_snoc_space; [exact Hc|].
  intros E. rewrite E in Hc. cbn in Hc. now symmetry in Hc.
Qed.

Lemma tokenize_one_cell c :
  plain_cell c -> tokenize (SPACE :: c ++ [SPACE]) = [c].
Proof.
  intros (Hne & Hs & Hch). unfold tokenize. rewrite split_no_sep.
  - cbn [flat_map]. rewrite (strip_padded Hne Hs). now destruct c.
  - constructor; [discriminate|]. apply Forall_app. split.
    + exact Hch.
    + repeat constructor. discriminate.
Qed.

Lemma tokenize_rendered_plain (cells : list str) :
  Forall plain_cell cells -> tokenize (render_row cells) = cells.
Proof.
  intros H. unfold render_row.
  match goal with
  | |- tokenize (PIPE :: ?l) = _ =>
      change (PIPE :: l) with ([] ++ PIPE :: l); rewrite tokenize_app_pipe
  end. cbn [app]. change (tokenize []) with (@nil str). cbn [app].
  induction H as [|c cells Hc _ IH]; [reflexivity|]. cbn [flat_map].
  replace ((SPACE :: c ++ [SPACE; PIPE])
           ++ flat_map (fun c => SPACE :: c ++ [SPACE; PIPE]) cells)
    with ((SPACE :: c ++ [SPACE])
          ++ PIPE :: flat_map (fun c => SPACE :: c ++ [SPACE; PIPE]) cells)
    by (cbn [app]; now rewrite <- !app_assoc).
  rewrite tokenize_app_pipe, (tokenize_one_cell Hc). cbn [app].
  f_equal. exact IH.
Qed.

Lemma clean_cell_plain c : clean_cell c -> plain_cell c.
Proof.
  intros (Hne & Hs & Hch). split; [exact Hne|]. split; [exact Hs|].
  eapply Forall_impl; [|exact Hch]. now intros ch (H & _).
Qed.

Lemma tokenize_rendered (cells : list str) :
  Forall clean_cell cells -> tokenize (render_row cells) = cells.
Proof.
  intros H. apply tokenize_rendered_plain.
  eapply Forall_impl; [|exact H]. exact clean_cell_plain.
Qed.

(** X4: writing a row of cells that are not empty, have no whitespace
    around them and hold no pipe (stars and any other character are
    allowed) the Markdown way gives a line with a pipe, and tokenizing that
    line gives the cells back. *)
Theorem tokenize_render_row (cells : list str) :
  Forall plain_cell cells ->
  Str.contains BAR (render_row cells) = true /\
  tokenize (render_row cells) = cells.
Proof.
  intros H. split; [reflexivity|now apply tokenize_rendered_plain].
Qed.

Ltac solve_clean_cells :=
  repeat match goal with
         | |- Forall _ _ => constructor
         | |- clean_cell _ => unfold clean_cell
         | |- plain_cell _ => unfold plain_cell
         | |- _ /\ _ => split
         | |- _ <> _ => let E := fresh in intro E; discriminate E
         | |- _ = _ => reflexivity
         end.

Lemma tokenize_render_row_witness :
  let cells := [lit "Chainage"; lit "a*b"; lit "2*3"; lit "**";
                lit "Depth to Invert"; lit "---"; lit "12.5"] in
  Forall plain_cell cells /\
  render_row cells = lit "| Chainage | a*b | 2*3 | ** | Depth to Invert | --- | 12.5 |" /\
  tokenize (lit "| Chainage | a*b | 2*3 | ** | Depth to Invert | --- | 12.5 |") = cells.
Proof.
  intros cells.
  assert (H : Forall plain_cell cells) by (unfold cells; solve_clean_cells).
  split; [exact H|]. split; [reflexivity|].
  exact (proj2 (tokenize_render_row H)).
Defined.

(** ** Lines without a pipe *)

Lemma contains_bar_false l :
  Str.contains BAR l = false <-> Forall (fun c => c <> PIPE) l.
Proof.
  induction l as [|c l IH]; cbn [Str.contains BAR lit list_ascii_of_string Str.starts_with].
  - split; [constructor|reflexivity].
  - rewrite andb_true_r, orb_false_iff, IH, Ascii.eqb_neq. split.
    + intros [Hc Hl]. constructor; [now apply not_eq_sym|exact Hl].
    + intros H. inversion H; subst. split; [now apply not_eq_sym|assumption].
Qed.

Lemma splitlines_from_Forall (P : ascii -> Prop) after_cr s :
  Forall P s -> Forall (Forall P) (Str.splitlines_from after_cr s).
Proof.
  intros H. revert after_cr. induction H as [|c s Hc _ IH]; intros after_cr;
    [constructor|]. cbn [Str.splitlines_from].
  destruct (after_cr && Ascii.eqb c LF); [apply IH|].
  destruct (Str.is_linebreak c); [constructor; [constructor|apply IH]|].
  specialize (IH false). destruct (Str.splitlines_from false s) as [|l ls].
  - repeat constructor. exact Hc.
  - inversion IH; subst. constructor; [now constructor|assumption].
Qed.

Lemma no_data_line_without_pipe lines :
  Forall (Forall (fun c => c <> PIPE)) lines -> filter is_data_line lines = [].
Proof.
  induction 1 as [|l lines Hl _ IH]; [reflexivity|]. cbn [filter].
  apply contains_bar_false in Hl. unfold is_data_line. now rewrite Hl.
Qed.

Lemma data_lines_without_prose ps :
  filter is_data_line
    (map (fun p => sub_emphasis (chop_cr p))
         (filter (fun p => Str.contains BAR (chop_cr p)) ps)) =
  filter is_data_line (map (fun p => sub_emphasis (chop_cr p)) ps).
Proof.
  induction ps as [|p ps IH]; [reflexivity|]. cbn [filter map].
  destruct (Str.contains BAR (chop_cr p)) eqn:E; cbn [map filter]; rewrite IH;
    [reflexivity|].
  apply contains_bar_false in E.
  apply (@sub_emphasis_Forall (fun c => c <> PIPE)) in E.
  apply contains_bar_false in E. unfold is_data_line. now rewrite E.
Qed.

Lemma raw_table_without_prose ps :
  Forall (fun p => no_linebreak (chop_cr p)) ps ->
  raw_table (Str.join LF (filter (fun p => Str.contains BAR (chop_cr p)) ps)) =
  raw_table (Str.join LF ps).
Proof.
  intros H. rewrite !raw_table_join; [now rewrite data_lines_without_prose|exact H|].
  apply Forall_forall. intros p Hin. apply filter_In in Hin as [Hin _].
  rewrite Forall_forall in H. now apply H.
Qed.

(** ** A table written as text *)

Lemma render_row_chars (P : ascii -> Prop) cells :
  P PIPE -> P SPACE -> Forall (Forall P) cells -> Forall P (render_row cells).
Proof.
  intros Hp Hs H. unfold render_row. constructor; [exact Hp|].
  induction H as [|c cells Hc _ IH]; [constructor|]. cbn [flat_map].
  apply Forall_app. split; [|exact IH]. constructor; [exact Hs|].
  apply Forall_app. split; [exact Hc|]. now repeat constructor.
Qed.

Lemma clean_row_chars cells :
  clean_row cells ->
  Forall (fun ch => ch <> STAR /\ Str.is_linebreak ch = false) (render_row cells).
Proof.
  intros [Hc _]. apply render_row_chars; [now split|now split|].
  eapply Forall_impl; [|exact Hc]. intros c (_ & _ & Hch).
  eapply Forall_impl; [|exact Hch]. now intros ch (_ & H1 & H2).
Qed.

Lemma clean_row_is_data_line cells :
  clean_row cells -> is_data_line (render_row cells) = true.
Proof.
  intros [_ Hd]. unfold is_data_line, is_separator. rewrite Hd, andb_false_r.
  cbn [negb]. rewrite andb_true_r. reflexivity.
Qed.

Lemma sub_emphasis_star_free s :
  Forall (fun ch => ch <> STAR /\ Str.is_linebreak ch = false) s ->
  sub_emphasis (chop_cr s) = s /\ no_linebreak (chop_cr s).
Proof.
  intros H.
  assert (Hl : no_linebreak s) by (eapply Forall_impl; [|exact H]; now intros ? [_ ?]).
  rewrite (chop_cr_plain Hl). split; [|exact Hl].
  rewrite <- (app_nil_r s) at 1. rewrite sub_emphasis_plain, sub_emphasis_nil.
  - apply app_nil_r.
  - eapply Forall_impl; [|exact H]. now intros ? [? _].
Qed.

(** X5: a table written as a header line, a separator line and one line
    per body row, all of clean cells, is read back cell for cell: the
    collected rows are the header followed by the body rows. *)
Theorem rendered_table_is_recovered (header : list str) (sep : str)
        (body : list (list str)) :
  clean_row header ->
  Forall clean_row body ->
  is_separator sep = true ->
  Forall (fun ch => ch <> STAR /\ Str.is_linebreak ch = false) sep ->
  raw_table (render_table header sep body) = header :: body.
Proof.
  intros Hh Hb Hs Hsc. unfold render_table.
  set (lines := render_row header :: sep :: map render_row body).
  assert (Hlines : Forall (fun l => Forall (fun ch => ch <> STAR /\
                                     Str.is_linebreak ch = false) l) lines).
  { subst lines. constructor; [now apply clean_row_chars|].
    constructor; [exact Hsc|]. apply Forall_map.
    eapply Forall_impl; [|exact Hb]. intros r Hr. now apply clean_row_chars. }
  rewrite raw_table_join.
  2:{ eapply Forall_impl; [|exact Hlines]. intros l Hl.
      now apply sub_emphasis_star_free. }
  assert (E : map (fun p => sub_emphasis (chop_cr p)) lines = lines).
  { rewrite <- (map_id lines) at 2. apply map_ext_in. intros l Hl.
    rewrite Forall_forall in Hlines. now apply sub_emphasis_star_free, Hlines. }
  rewrite E. subst lines. cbn [filter].
  rewrite (clean_row_is_data_line Hh).
  assert (Es : is_data_line sep = false)
    by (unfold is_data_line; now rewrite Hs, andb_false_r).
  rewrite Es. cbn [map]. destruct Hh as [Hh _]. rewrite (tokenize_rendered Hh).
  f_equal. clear - Hb. induction Hb as [|r body Hr _ IH]; [reflexivity|].
  cbn [map filter]. rewrite (clean_row_is_data_line Hr). cbn [map].
  destruct Hr as [Hr _]. now rewrite (tokenize_rendered Hr), IH.
Qed.

Lemma clean_row_check cells :
  Forall clean_cell cells ->
  Str.contains DASHES (render_row cells) = false ->
  clean_row cells.
Proof. now split. Qed.

Lemma rendered_table_is_recovered_witness :
  let header := [lit "Chainage"; lit "Depth"] in
  let body := [[lit "0"; lit "1.2"]; [lit "10"]; []] in
  let sep := lit "|---|---|" in
  render_table header sep body =
    Str.join LF [lit "| Chainage | Depth |"; lit "|---|---|";
                 lit "| 0 | 1.2 |"; lit "| 10 |"; lit "|"] /\
  clean_row header /\ Forall clean_row body /\ is_separator sep = true /\
  raw_table (render_table header sep body) = header :: body.
Proof.
  intros header body sep.
  assert (Hh : clean_row header)
    by (apply clean_row_check; [unfold header; solve_clean_cells|reflexivity]).
  assert (Hb : Forall clean_row body).
  { unfold body.
    repeat (apply Forall_cons;
            [apply clean_row_check; [solve_clean_cells|reflexivity]|]).
    apply Forall_nil. }
  assert (Hs : is_separator sep = true) by reflexivity.
  assert (Hc : Forall (fun ch => ch <> STAR /\ Str.is_linebreak ch = false) sep).
  { unfold sep. repeat constructor; try reflexivity;
      let E := fresh in intro E; discriminate E. }
  split; [reflexivity|]. split; [exact Hh|]. split; [exact Hb|]. split; [exact Hs|].
  exact (rendered_table_is_recovered Hh Hb Hs Hc).
Defined.

(** ** When the parser returns and what it raises *)

Lemma raw_table_header_trimmed text first body :
  raw_table text = first :: body ->
  map Str.strip first = first /\ Forall (fun l => l <> [] /\ Str.strip l = l) first.
Proof.
  rewrite raw_table_data. intros Er.
  destruct (filter is_data_line (Str.splitlines (sub_emphasis text)))
    as [|l ls]; [discriminate Er|].
  injection Er as <- _. split; [apply map_strip_tokenize|apply tokenize_cells].
Qed.

Section ParserOutcomes.

Variable num : Type.
Variable parse_number : str -> option num.

#[local] Abbreviation DataFrame := (DataFrame num).
#[local] Abbreviation CStr := (@CStr num).
#[local] Abbreviation new_frame := (@new_frame num).
#[local] Abbreviation coerce_columns := (coerce_columns parse_number).
#[local] Abbreviation build_frame := (build_frame parse_number).
#[local] Abbreviation parse_markdown_table := (parse_markdown_table parse_number).
#[local] Abbreviation upload_one := (upload_one parse_number).
#[local] Abbreviation upload_all := (upload_all parse_number).

Lemma new_frame_raise data labels e :
  new_frame data labels = Raise e -> e = ValueError.
Proof.
  unfold new_frame. destruct data as [|row data]; [discriminate|].
  destruct (_ =? _); [discriminate|]. now intros [= <-].
Qed.

Lemma coerce_columns_raise cols (df : DataFrame) e :
  coerce_columns cols df = Raise e -> e = TypeError.
Proof.
  revert df. induction cols as [|c cols IH]; intros df; [discriminate|].
  cbn [coerce_columns]. unfold getitem.
  destruct (positions_from 0 c (columns df)) as [|j [|j' js]];
    cbn [to_numeric bind]; try (now intros [= <-]).
  apply IH.
Qed.

(** The frame construction up to the coercion loop, for a header with a
    cell and rows that fit. *)
Lemma build_frame_fitting (first : list str) (body : list (list str)) :
  first <> [] ->
  Forall (fun row => length row <= length first) body ->
  build_frame (first :: body) =
  coerce_columns (tl (map Str.strip first))
    (MkFrame (map Str.strip first)
       (seq 0 (length (filter keep_row (pad_rows (length first) body))))
       (map (map CStr) (filter keep_row (pad_rows (length first) body)))).
Proof.
  intros Hne Hlen. unfold build_frame. cbv zeta.
  rewrite new_frame_padded by now rewrite length_map.
  cbn [bind]. unfold iloc_column. cbn [columns].
  destruct (map Str.strip first) as [|c0 cols] eqn:Eh; [now destruct first|].
  cbn [length Nat.ltb Nat.leb bind].
  rewrite mask_keep_row. unfold reset_index, loc_mask. cbn [columns rows index tl].
  rewrite select_map, length_map.
  assert (El : S (length cols) = length first).
  { change (S (length cols)) with (length (c0 :: cols)).
    now rewrite <- Eh, length_map. }
  now rewrite El.
Qed.

(** X6: the parser returns a table exactly when the collected rows are
    empty or have a header with at least one cell, pairwise distinct
    header cells and no body row longer than the header; on every other
    text it raises. *)
Theorem parse_returns_iff_well_formed (text : str) :
  (exists df, parse_markdown_table text = Ok df) <->
  well_formed_table (raw_table text).
Proof.
  split.
  - intros [df H]. apply parse_ok_cases in H
      as [[-> _]|(first & body & -> & Hne & Hnd & Hlen & _)]; cbn; auto.
  - unfold parse_markdown_table. intros H.
    destruct (raw_table text) as [|first body] eqn:Er.
    + now exists empty_frame.
    + destruct H as (Hne & Hnd & Hlen).
      destruct (raw_table_header_trimmed _ Er) as [Es _].
      eexists. apply build_frame_wellformed; [exact Hne|now rewrite Es|exact Hlen].
Qed.

(** X7: as soon as one body row has more cells than the header, the
    parser raises ValueError, whatever else the text holds. *)
Theorem long_row_raises_value_error (text : str) (first : list str)
        (body : list (list str)) :
  raw_table text = first :: body ->
  Exists (fun row => length first < length row) body ->
  parse_markdown_table text = Raise ValueError.
Proof.
  intros Er Hex. unfold parse_markdown_table. rewrite Er.
  unfold build_frame. cbv zeta.
  destruct (new_frame (pad_rows (length (map Str.strip first)) body)
              (map Str.strip first)) as [df0|e] eqn:En.
  - apply new_frame_ok_inv in En. rewrite length_map in En.
    apply Exists_exists in Hex as (row & Hin & Hlt).
    rewrite Forall_forall in En. specialize (En row Hin). lia.
  - apply new_frame_raise in En. now subst e.
Qed.

(** X8: a header line without any cell, followed by data lines without
    any cell or by none, makes the parser raise IndexError. *)
Theorem empty_header_raises_index_error (text : str) (body : list (list str)) :
  raw_table text = [] :: body ->
  Forall (fun row => row = []) body ->
  parse_markdown_table text = Raise IndexError.
Proof.
  intros Er Hb. unfold parse_markdown_table. rewrite Er.
  unfold build_frame. cbv zeta. cbn [map].
  rewrite (@new_frame_padded num [] body); [reflexivity|].
  eapply Forall_impl; [|exact Hb]. now intros row ->.
Qed.

(** X9: when the header has a cell and every body row fits under it, but
    two header cells are the same text, the parser raises TypeError. *)
Theorem repeated_label_raises_type_error (text : str) (first : list str)
        (body : list (list str)) :
  raw_table text = first :: body ->
  first <> [] ->
  Forall (fun row => length row <= length first) body ->
  ~ NoDup first ->
  parse_markdown_table text = Raise TypeError.
Proof.
  intros Er Hne Hlen Hdup. unfold parse_markdown_table. rewrite Er.
  destruct (build_frame (first :: body)) as [df|e] eqn:Eb.
  - apply build_frame_ok_inv in Eb as (_ & Hnd & _).
    destruct (raw_table_header_trimmed _ Er) as [Es _]. rewrite Es in Hnd.
    contradiction.
  - rewrite (build_frame_fitting Hne Hlen) in Eb.
    apply coerce_columns_raise in Eb. now subst e.
Qed.

(** X10: the column labels of a returned table that has columns are the
    cells of the first data line of the stripped text: none is empty or
    has surrounding whitespace, no two are equal; and the table has at
    most one row per further data line. *)
Theorem labels_are_first_data_line (text : str) (df : DataFrame) :
  parse_markdown_table text = Ok df ->
  columns df <> [] ->
  exists line rest,
    filter is_data_line (Str.splitlines (sub_emphasis text)) = line :: rest /\
    columns df = tokenize line /\
    Forall (fun l => l <> [] /\ Str.strip l = l) (columns df) /\
    NoDup (columns df) /\
    length (rows df) <= length rest.
Proof.
  intros H Hc. apply parse_ok_cases in H
    as [[_ ->]|(first & body & Er & Hne & Hnd & Hlen & ->)]; [now cbn in Hc|].
  destruct (raw_table_header_trimmed _ Er) as [_ Ht].
  rewrite raw_table_data in Er.
  destruct (filter is_data_line (Str.splitlines (sub_emphasis text)))
    as [|line rest]; [discriminate Er|].
  injection Er as E1 E2. exists line, rest. cbn [columns rows].
  split; [reflexivity|]. split; [now symmetry|]. split; [exact Ht|].
  split; [exact Hnd|]. unfold final_rows.
  rewrite length_map. etransitivity; [apply filter_length_le|].
  unfold pad_rows. now rewrite length_map, <- E2, length_map.
Qed.

Lemma raw_table_without_pipe (text : str) :
  Forall (fun c => c <> PIPE) text -> raw_table text = [].
Proof.
  intros H. rewrite raw_table_data.
  rewrite no_data_line_without_pipe; [reflexivity|].
  apply splitlines_from_Forall. now apply sub_emphasis_Forall.
Qed.

(** X11: a text without any pipe gives the empty table, whatever else it
    holds, and no exception. *)
Theorem no_pipe_gives_empty_table (text : str) :
  Forall (fun c => c <> PIPE) text ->
  parse_markdown_table text = Ok empty_frame.
Proof.
  intros H. unfold parse_markdown_table. now rewrite (raw_table_without_pipe H).
Qed.

(** X12: in a text whose line boundaries are LF or CR LF, the lines
    without a pipe can be deleted without any change of the outcome. *)
Theorem prose_lines_are_ignored (text : str) :
  lf_terminated text ->
  parse_markdown_table (delete_prose_lines text) = parse_markdown_table text.
Proof.
  intros H. unfold parse_markdown_table, delete_prose_lines.
  rewrite (raw_table_without_prose H). now rewrite join_split.
Qed.

End ParserOutcomes.

(** ** The upload loop *)

Section UploadProperties.

Variable num : Type.
Variable parse_number : str -> option num.

#[local] Abbreviation DataFrame := (DataFrame num).
#[local] Abbreviation parse_markdown_table := (parse_markdown_table parse_number).
#[local] Abbreviation upload_one := (upload_one parse_number).
#[local] Abbreviation upload_all := (upload_all parse_number).

(** A table returned by the parser is empty, in the sense of [df.empty],
    exactly when it has no row. *)
Lemma is_empty_parsed (text : str) (df : DataFrame) :
  parse_markdown_table text = Ok df -> is_empty df = negb (truthy (rows df)).
Proof.
  intros H. apply parse_ok_cases in H
    as [[_ ->]|(first & body & _ & Hne & _ & _ & ->)]; [reflexivity|].
  unfold is_empty. cbn [columns index rows].
  destruct first as [|c0 cols]; [contradiction|]. cbn [truthy negb orb].
  now destruct (final_rows parse_number (c0 :: cols) body).
Qed.

Lemma upload_one_parsed (data_table : DataFrame) (text : str) (df : DataFrame) :
  parse_markdown_table text = Ok df ->
  upload_one data_table (Completed text) =
  Done (if truthy (rows df) then df else data_table).
Proof.
  intros H. unfold upload_one. cbn [extract_text_with_llamaocr]. rewrite H.
  rewrite (is_empty_parsed _ H), negb_involutive.
  now destruct (truthy (rows df)).
Qed.

(** X13: the table of an uploaded file replaces the session's table
    exactly when it has at least one row; otherwise the session's table
    stays as it was. *)
Theorem upload_replaces_iff_rows (data_table : DataFrame) (text : str)
        (df : DataFrame) :
  parse_markdown_table text = Ok df ->
  upload_one data_table (Completed text) =
  Done (if truthy (rows df) then df else data_table) /\
  (upload_one data_table (Completed text) = Done df <->
   rows df <> [] \/ df = data_table).
Proof.
  intros H. rewrite (@upload_one_parsed data_table _ _ H).
  split; [reflexivity|]. destruct (rows df) as [|r rs]; cbn [truthy].
  - split; [intros [= ->]; now right|intros [N| ->]; [contradiction|reflexivity]].
  - split; [intros _; now left|reflexivity].
Qed.

(** X14: a failed OCR process (non-zero exit status) and an OCR text
    without any pipe leave the session's table as it was and stop
    nothing. *)
Theorem unusable_ocr_keeps_table (data_table : DataFrame) (outcome : process_outcome) :
  outcome = CalledProcessError \/
  (exists text, outcome = Completed text /\ Forall (fun c => c <> PIPE) text) ->
  upload_one data_table outcome = Done data_table.
Proof.
  intros [->|(text & -> & H)].
  - reflexivity.
  - rewrite (@upload_one_parsed data_table text empty_frame); [reflexivity|].
    unfold parse_markdown_table. now rewrite (raw_table_without_pipe H).
Qed.

(** X15: a text with a proper header whose body rows are all removed by
    the sentinel filter, or that has no body row at all, does not replace
    the session's table. *)
Theorem header_only_keeps_table (data_table : DataFrame) (text : str)
        (first : list str) (body : list (list str)) :
  raw_table text = first :: body ->
  first <> [] -> NoDup first ->
  Forall (fun row => length row <= length first) body ->
  Forall (fun row => keep_row (pad_row (length first) row) = false) body ->
  upload_one data_table (Completed text) = Done data_table.
Proof.
  intros Er Hne Hnd Hlen Hs.
  destruct (raw_table_header_trimmed _ Er) as [Es _].
  assert (H : parse_markdown_table text =
              Ok (MkFrame first (seq 0 (length (final_rows parse_number first body)))
                    (final_rows parse_number first body))).
  { unfold parse_markdown_table. rewrite Er.
    rewrite build_frame_wellformed; [now rewrite Es|exact Hne|now rewrite Es|exact Hlen]. }
  rewrite (@upload_one_parsed data_table _ _ H). cbn [rows].
  assert (E : final_rows parse_number first body = []).
  { unfold final_rows. rewrite pad_rows_map.
    clear - Hs. induction Hs as [|row body Hr _ IH]; [reflexivity|].
    cbn [map filter]. now rewrite Hr. }
  now rewrite E.
Qed.

Lemma upload_one_done (data_table : DataFrame) outcome (t : DataFrame) :
  upload_one data_table outcome = Done t ->
  t = data_table \/
  exists text, outcome = Completed text /\
               parse_markdown_table text = Ok t /\ rows t <> [].
Proof.
  destruct outcome as [text| |]; [|intros [= <-]; now left|discriminate].
  destruct (parse_markdown_table text) as [df|e] eqn:H.
  - rewrite (@upload_one_parsed data_table _ _ H).
    destruct (rows df) as [|r rs] eqn:Er; cbn [truthy]; intros [= <-]; [now left|].
    right. exists text. rewrite Er. now repeat split.
  - unfold upload_one. cbn [extract_text_with_llamaocr]. now rewrite H.
Qed.

(** X16: after the loop over the uploaded files, the session's table is
    the one it was before, or a table with at least one row that the
    parser returned for the text of one of the files. *)
Theorem upload_all_keeps_or_replaces (data_table : DataFrame)
        (outcomes : list process_outcome) (t : DataFrame) :
  upload_all data_table outcomes = Done t ->
  t = data_table \/
  exists text, In (Completed text) outcomes /\
               parse_markdown_table text = Ok t /\ rows t <> [].
Proof.
  revert data_table. induction outcomes as [|o os IH]; intros data_table.
  - intros [= <-]. now left.
  - cbn [upload_all]. destruct (upload_one data_table o) as [t1|e] eqn:E1;
      [|discriminate]. intros H. apply IH in H as [->|(text & Hin & Hp & Hr)].
    + apply upload_one_done in E1 as [->|(text & -> & Hp & Hr)]; [now left|].
      right. exists text. split; [now left|now split].
    + right. exists text. split; [now right|now split].
Qed.

Lemma upload_all_app (data_table : DataFrame) (a b : list process_outcome) :
  upload_all data_table (a ++ b) =
  match upload_all data_table a with
  | Done t => upload_all t b
  | Aborted e => Aborted e
  end.
Proof.
  revert data_table. induction a as [|o a IH]; intros data_table; [reflexivity|].
  cbn [app upload_all]. destruct (upload_one data_table o); [apply IH|reflexivity].
Qed.

(** X17: the last uploaded file whose table has a row decides: when the
    loop gets through the files before it, the session's table after it
    is that file's table, whatever the table was (nothing is merged). *)
Theorem upload_last_table_wins (data_table t0 df : DataFrame)
        (outcomes : list process_outcome) (text : str) :
  upload_all data_table outcomes = Done t0 ->
  parse_markdown_table text = Ok df ->
  rows df <> [] ->
  upload_all data_table (outcomes ++ [Completed text]) = Done df.
Proof.
  intros H0 Hp Hr. rewrite upload_all_app, H0. cbn [upload_all].
  rewrite (@upload_one_parsed t0 _ _ Hp).
  now destruct (rows df).
Qed.

(** X18: an exception of the parser on one file stops the loop: the
    files after it are not processed and no table is returned. *)
Theorem upload_stops_at_parser_exception (data_table t0 : DataFrame)
        (before after : list process_outcome) (text : str) (e : exn) :
  upload_all data_table before = Done t0 ->
  parse_markdown_table text = Raise e ->
  upload_all data_table (before ++ Completed text :: after) =
  Aborted (ParserRaised e).
Proof.
  intros H0 Hp. rewrite upload_all_app, H0. cbn [upload_all].
  unfold upload_one. cbn [extract_text_with_llamaocr]. now rewrite Hp.
Qed.

End UploadProperties.

(** ** The further properties at work *)

Lemma long_row_raises_value_error_witness :
  let text := Str.join LF [lit "| a | b |"; lit "| 1 | 2 |"; lit "| 3 | 4 | 5 |"] in
  raw_table text = [lit "a"; lit "b"]
                   :: [[lit "1"; lit "2"]; [lit "3"; lit "4"; lit "5"]] /\
  parse_markdown_table parse_digits text = Raise ValueError.
Proof.
  intros text.
  assert (Er : raw_table text = [lit "a"; lit "b"]
               :: [[lit "1"; lit "2"]; [lit "3"; lit "4"; lit "5"]]) by reflexivity.
  split; [exact Er|].
  apply (@long_row_raises_value_error nat parse_digits text _ _ Er).
  apply Exists_cons_tl, Exists_cons_hd. cbn. lia.
Defined.

Lemma empty_header_raises_index_error_witness :
  let text := Str.join LF [lit "| |"; lit "|---|"; lit "||"] in
  raw_table text = [] :: [[]] /\
  parse_markdown_table parse_digits text = Raise IndexError.
Proof.
  intros text.
  assert (Er : raw_table text = [] :: [[]]) by reflexivity.
  split; [exact Er|].
  apply (@empty_header_raises_index_error nat parse_digits text _ Er).
  now repeat constructor.
Defined.

Lemma repeated_label_raises_type_error_witness :
  let text := Str.join LF [lit "| Chainage | Level | Level |"; lit "| 0 | 1 | 2 |"] in
  raw_table text = [lit "Chainage"; lit "Level"; lit "Level"]
                   :: [[lit "0"; lit "1"; lit "2"]] /\
  ~ NoDup [lit "Chainage"; lit "Level"; lit "Level"] /\
  parse_markdown_table parse_digits text = Raise TypeError.
Proof.
  intros text.
  assert (Er : raw_table text = [lit "Chainage"; lit "Level"; lit "Level"]
               :: [[lit "0"; lit "1"; lit "2"]]) by reflexivity.
  assert (Hd : ~ NoDup [lit "Chainage"; lit "Level"; lit "Level"]).
  { intros H. inversion H as [|? ? _ H1]; subst.
    inversion H1 as [|? ? Hn _]; subst. apply Hn. now left. }
  split; [exact Er|]. split; [exact Hd|].
  apply (@repeated_label_raises_type_error nat parse_digits text _ _ Er);
    [discriminate| |exact Hd].
  repeat constructor.
Defined.

Lemma labels_are_first_data_line_witness :
  parse_markdown_table parse_digits sample_text = Ok sample_frame /\
  exists line rest,
    filter is_data_line (Str.splitlines (sub_emphasis sample_text)) = line :: rest /\
    columns sample_frame = tokenize line /\
    length (rows sample_frame) <= length rest.
Proof.
  assert (H : parse_markdown_table parse_digits sample_text = Ok sample_frame)
    by reflexivity.
  split; [exact H|].
  destruct (@labels_are_first_data_line nat parse_digits sample_text sample_frame H)
    as (line & rest & E & Hc & _ & _ & Hl); [discriminate|].
  exists line, rest. now repeat split.
Defined.

Lemma no_pipe_gives_empty_table_witness :
  Forall (fun c => c <> PIPE) (lit "Error: **no** text --- found") /\
  parse_markdown_table parse_digits (lit "Error: **no** text --- found") =
  Ok empty_frame.
Proof.
  assert (H : Forall (fun c => c <> PIPE) (lit "Error: **no** text --- found"))
    by solve_chars.
  split; [exact H|]. exact (@no_pipe_gives_empty_table nat parse_digits _ H).
Defined.

Lemma prose_lines_are_ignored_witness :
  let text := lit "Profile:" ++ CR :: LF :: lit "| a | b |" ++ LF :: LF ::
              lit "| 1 | 2 |" ++ LF :: lit "end --- of table" in
  lf_terminated text /\
  delete_prose_lines text = lit "| a | b |" ++ LF :: lit "| 1 | 2 |" /\
  parse_markdown_table parse_digits (delete_prose_lines text) =
  parse_markdown_table parse_digits text.
Proof.
  intros text.
  assert (H : lf_terminated text)
    by (apply lf_terminated_check; vm_compute; reflexivity).
  split; [exact H|]. split; [reflexivity|].
  exact (@prose_lines_are_ignored nat parse_digits text H).
Defined.

Lemma upload_replaces_iff_rows_witness :
  parse_markdown_table parse_digits sample_text = Ok sample_frame /\
  upload_one parse_digits empty_frame (Completed sample_text) = Done sample_frame.
Proof.
  assert (H : parse_markdown_table parse_digits sample_text = Ok sample_frame)
    by reflexivity.
  split; [exact H|].
  exact (proj1 (@upload_replaces_iff_rows nat parse_digits empty_frame _ _ H)).
Defined.

Lemma unusable_ocr_keeps_table_witness :
  upload_one parse_digits sample_frame CalledProcessError = Done sample_frame.
Proof.
  apply (@unusable_ocr_keeps_table nat parse_digits). now left.
Defined.

Lemma header_only_keeps_table_witness :
  let text := Str.join LF [lit "| Chainage | Depth |"; lit "|---|---|";
                           lit "| existing levels (m) |"] in
  raw_table text = [lit "Chainage"; lit "Depth"] :: [[lit "existing levels (m)"]] /\
  upload_one parse_digits sample_frame (Completed text) = Done sample_frame.
Proof.
  intros text.
  assert (Er : raw_table text =
               [lit "Chainage"; lit "Depth"] :: [[lit "existing levels (m)"]])
    by reflexivity.
  split; [exact Er|].
  apply (@header_only_keeps_table nat parse_digits sample_frame text _ _ Er).
  - discriminate.
  - repeat constructor; cbn; intuition discriminate.
  - repeat constructor; cbn; lia.
  - repeat constructor.
Defined.

Lemma upload_all_keeps_or_replaces_witness :
  let outcomes := [Completed sample_text; CalledProcessError;
                   Completed (lit "| only | header |")] in
  upload_all parse_digits empty_frame outcomes = Done sample_frame /\
  (sample_frame = empty_frame \/
   exists text, In (Completed text) outcomes /\
                parse_markdown_table parse_digits text = Ok sample_frame /\
                rows sample_frame <> []).
Proof.
  intros outcomes.
  assert (H : upload_all parse_digits empty_frame outcomes = Done sample_frame)
    by reflexivity.
  split; [exact H|].
  exact (@upload_all_keeps_or_replaces nat parse_digits empty_frame outcomes _ H).
Defined.

Lemma upload_last_table_wins_witness :
  let first_text := Str.join LF [lit "| x | y |"; lit "| 1 | 2 |"] in
  upload_all parse_digits empty_frame [Completed first_text; CalledProcessError] =
    Done (MkFrame [lit "x"; lit "y"] [0] [[CStr (lit "1"); CNum 2]]) /\
  parse_markdown_table parse_digits sample_text = Ok sample_frame /\
  upload_all parse_digits empty_frame
    ([Completed first_text; CalledProcessError] ++ [Completed sample_text]) =
    Done sample_frame.
Proof.
  intros first_text.
  assert (H0 : upload_all parse_digits empty_frame
                 [Completed first_text; CalledProcessError] =
               Done (MkFrame [lit "x"; lit "y"] [0] [[CStr (lit "1"); CNum 2]]))
    by reflexivity.
  assert (Hp : parse_markdown_table parse_digits sample_text = Ok sample_frame)
    by reflexivity.
  split; [exact H0|]. split; [exact Hp|].
  apply (@upload_last_table_wins nat parse_digits _ _ _ _ _ H0 Hp). discriminate.
Defined.

Lemma upload_stops_at_parser_exception_witness :
  let bad := Str.join LF [lit "| a |"; lit "| 1 | 2 |"] in
  upload_all parse_digits empty_frame [Completed sample_text] = Done sample_frame /\
  parse_markdown_table parse_digits bad = Raise ValueError /\
  upload_all parse_digits empty_frame
    ([Completed sample_text] ++ Completed bad :: [Completed sample_text]) =
    Aborted (ParserRaised ValueError).
Proof.
  intros bad.
  assert (H0 : upload_all parse_digits empty_frame [Completed sample_text] =
               Done sample_frame) by reflexivity.
  assert (Hp : parse_markdown_table parse_digits bad = Raise ValueError)
    by reflexivity.
  split; [exact H0|]. split; [exact Hp|].
  exact (@upload_stops_at_parser_exception nat parse_digits _ _ _
           [Completed sample_text] _ _ H0 Hp).
Defined.

(** ** The data behind the plot *)

Lemma nth_update {A} (j j' : nat) (v d : A) (row : list A) :
  nth j (update j' v row) d =
  if (j =? j') && (j <? length row) then v else nth j row d.
Proof.
  revert j j'. induction row as [|y row IH]; intros j j'.
  - cbn [length]. replace (j <? 0) with false by now destruct j.
    rewrite andb_false_r. now destruct j'.
  - destruct j' as [|j'], j as [|j]; cbn [update nth length]; try reflexivity.
    rewrite IH. reflexivity.
Qed.



Section VisualizationProperties.

Variable num : Type.
Variable parse_number : str -> option num.
Variable upper : str -> str.

#[local] Abbreviation cell := (cell num).
#[local] Abbreviation CMissing := (@CMissing num).
#[local] Abbreviation DataFrame := (DataFrame num).
#[local] Abbreviation coerce_cell := (coerce_cell parse_number).
#[local] Abbreviation coerce_columns := (coerce_columns parse_number).
#[local] Abbreviation visualize := (visualize parse_number upper).

#[local] Abbreviation numeric_at := (@numeric_at num).

Lemma set_column_numeric j j' (values : list cell) (rs : list (list cell)) :
  Forall (@numeric_or_missing num) values ->
  numeric_at j rs -> numeric_at j (set_column j' values rs).
Proof.
  intros Hv. revert rs. induction Hv as [|v values Hv _ IH]; intros rs Hrs.
  - now destruct rs.
  - destruct rs as [|row rs]; [constructor|]. cbn [set_column].
    inversion Hrs; subst. constructor; [|now apply IH].
    rewrite nth_update. now destruct ((j =? j') && (j <? length row)).
Qed.

Lemma set_column_own j (f : cell -> cell) (rs : list (list cell)) :
  (forall c, numeric_or_missing (f c)) ->
  numeric_at j (set_column j (map (fun row => f (nth j row CMissing)) rs) rs).
Proof.
  intros Hf. rewrite set_column_map. apply Forall_map, Forall_forall.
  intros row _. rewrite nth_update.
  destruct ((j =? j) && (j <? length row)) eqn:E; [apply Hf|].
  rewrite Nat.eqb_refl in E. cbn in E. apply Nat.ltb_ge in E.
  rewrite nth_overflow by exact E. now left.
Qed.

Lemma set_column_rows j (values : list cell) (rs : list (list cell)) :
  length (set_column j values rs) = length rs.
Proof.
  revert values. induction rs as [|row rs IH]; intros [|v values]; cbn;
    try reflexivity. now rewrite IH.
Qed.

(** The coercion loop keeps the labels and the number of rows, and what
    is numeric or missing stays so. *)
Lemma coerce_columns_keeps cols (df df' : DataFrame) j :
  coerce_columns cols df = Ok df' ->
  columns df' = columns df /\
  length (rows df') = length (rows df) /\
  (numeric_at j (rows df) -> numeric_at j (rows df')).
Proof.
  revert df. induction cols as [|c cols IH]; intros df H.
  - injection H as <-. now repeat split.
  - cbn [coerce_columns] in H. unfold getitem in H.
    destruct (positions_from 0 c (columns df)) as [|j0 [|j1 js]] eqn:Ep;
      try discriminate H.
    cbn [to_numeric bind] in H. apply IH in H as (Hc & Hl & Hn).
    unfold setitem in *. rewrite Ep in *. cbn [fold_left columns rows] in *.
    rewrite set_column_rows in Hl. repeat split; try assumption.
    intros Hj. apply Hn. apply set_column_numeric; [|exact Hj].
    unfold column_at. apply Forall_map, Forall_forall. intros row _.
    apply coerce_cell_numeric.
Qed.



(** X20: in the prepared data every row has a number under the x-axis
    column, whose label contains CHAINAGE; rows are only dropped, never
    added; and the plotted columns are neither the x-axis nor a column
    whose label contains DEPTH TO INVERT. *)
Theorem visualize_plots_numeric_chainage (data_table : DataFrame)
        (x_axis : str) (numeric_columns : list str) (data : DataFrame) :
  visualize data_table = Ok (Plot x_axis numeric_columns data) ->
  Str.contains CHAINAGE x_axis = true /\
  (exists j, positions_from 0 x_axis (columns data) = [j] /\
             Forall (fun row => exists x, nth j row CMissing = CNum x) (rows data)) /\
  length (rows data) <= length (rows data_table) /\
  Forall (fun col => col <> x_axis /\ Str.contains DEPTH_TO_INVERT col = false /\
                     In col (columns data)) numeric_columns.
Proof.
  unfold visualize. destruct (is_empty data_table); cbn [negb]; [discriminate|].
  unfold set_columns. cbn [columns].
  remember (map (fun col => upper (Str.strip col)) (columns data_table))
    as labels eqn:El.
  destruct (filter (Str.contains CHAINAGE) labels) as [|x xs] eqn:Ef; [discriminate|].
  assert (Hx : In x (filter (Str.contains CHAINAGE) labels)) by (rewrite Ef; now left).
  apply filter_In in Hx as [Hx Hc].
  unfold getitem, setitem. cbn [columns rows index].
  destruct (positions_from 0 x labels) as [|j [|j1 js]] eqn:Ej; try discriminate.
  cbn [to_numeric bind fold_left].
  match goal with
  | |- context [coerce_columns ?cols ?df] =>
      destruct (coerce_columns cols df) as [df'|e] eqn:Hdf; [|discriminate]
  end.
  cbn [bind]. intros [= <- <- <-].
  destruct (@coerce_columns_keeps _ _ _ j Hdf) as (Hcols & Hlen & Hnum).
  cbn [columns rows] in Hcols, Hlen, Hnum.
  rewrite set_column_rows in Hlen.
  split; [exact Hc|]. unfold dropna, loc_mask. cbn [columns rows].
  rewrite Hcols, Ej. split; [|split].
  - exists j. split; [reflexivity|].
    rewrite <- (map_id (rows df')) at 2. rewrite select_map.
    apply Forall_map, Forall_forall. intros row Hr. apply filter_In in Hr as [Hr Hm].
    cbn [forallb] in Hm. rewrite andb_true_r in Hm.
    assert (Hn : numeric_at j (rows df')).
    { apply Hnum. unfold column_at. cbn [rows]. rewrite map_map.
      apply (@set_column_own j coerce_cell (rows data_table)).
      apply coerce_cell_numeric. }
    unfold numeric_at in Hn.
    rewrite Forall_forall in Hn. destruct (Hn row Hr) as [E|[v E]].
    + rewrite E in Hm. discriminate Hm.
    + now exists v.
  - rewrite <- (map_id (rows df')) at 2. rewrite select_map, length_map.
    etransitivity; [apply filter_length_le|]. now rewrite Hlen.
  - apply Forall_forall. intros col Hcol. apply filter_In in Hcol as [Hin Hf].
    apply andb_prop in Hf as [H1 H2]. apply negb_true_iff in H2.
    destruct (str_eq_dec col x) as [E|N]; [discriminate H1|].
    now repeat split.
Qed.

End VisualizationProperties.


Lemma visualize_plots_numeric_chainage_witness :
  visualize parse_digits upper_ascii survey_frame =
    Ok (Plot (lit "CHAINAGE (M)") [lit "LEVEL"] survey_plot_data) /\
  Str.contains CHAINAGE (lit "CHAINAGE (M)") = true /\
  length (rows survey_plot_data) <= length (rows survey_frame).
Proof.
  assert (H : visualize parse_digits upper_ascii survey_frame =
              Ok (Plot (lit "CHAINAGE (M)") [lit "LEVEL"] survey_plot_data))
    by reflexivity.
  destruct (@visualize_plots_numeric_chainage nat parse_digits upper_ascii _ _ _ _ H)
    as (Hc & _ & Hl & _).
  split; [exact H|]. split; [exact Hc|exact Hl].
Defined.

Lemma parse_returns_iff_well_formed_witness :
  well_formed_table (raw_table sample_text) /\
  exists df, parse_markdown_table parse_digits sample_text = Ok df.
Proof.
  assert (H : well_formed_table (raw_table sample_text)).
  { change (raw_table sample_text) with (sample_first :: sample_body).
    split; [discriminate|]. split.
    - repeat constructor; cbn; intuition discriminate.
    - repeat constructor; cbn; lia. }
  split; [exact H|].
  exact (proj2 (@parse_returns_iff_well_formed nat parse_digits sample_text) H).
Defined.
